(** * Tutorial_NER: a CNN tagger for named entity recognition

    A shallow embedding of the code cells of [Tutorials/Tutorial_NER.ipynb]:
    the mask and padding utilities, [get_embeddings], [conv_net],
    [masked_cross_entropy], the class [NerNetwork] with its two entry points
    [__call__] and [train_on_batch], and the evaluation loop [eval_valid].

    Tensors of [tf.float32] are nested lists over the real numbers: the
    development reasons about the exact arithmetic the graph denotes, not
    about rounding.  Integer tensors ([tf.int32] ids) are nested lists over
    [Z].  A graph evaluation that TensorFlow aborts with an exception (a
    placeholder that is read but was not fed, operands of different shapes,
    an id outside the embedding matrix) evaluates to [None].

    The session is explicit state: the trainable variables, the slots of the
    optimizer, and the random draws of one run.  The optimizer itself is a
    parameter: one step maps a learning rate, the loss as a function of the
    variables, and the current state to the next state. *)

From Stdlib Require Import String.
From Stdlib Require Import Reals Lra Lia List ZArith Bool.
Import ListNotations.

#[local] Open Scope R_scope.

(** ** Tensors and the error monad *)

Definition vec := list R.
Definition tensor2 := list (list R).
Definition tensor3 := list (list (list R)).
Definition ids2 := list (list Z).

Definition bind {A B : Type} (m : option A) (k : A -> option B) : option B :=
  match m with
  | Some a => k a
  | None => None
  end.

Notation "x <- m ;; k" := (bind m (fun x => k))
  (at level 61, m at next level, right associativity).

(** Python's [enumerate]. *)
Definition enumerate {A : Type} (l : list A) : list (nat * A) :=
  combine (seq 0 (length l)) l.

(** Elementwise combination of two lists of the same length; operands of
    different lengths are a shape error. *)
Fixpoint zip_with_exact {A B C : Type} (f : A -> B -> option C)
    (a : list A) (b : list B) : option (list C) :=
  match a, b with
  | [], [] => Some []
  | x :: a', y :: b' =>
      z <- f x y ;;
      r <- zip_with_exact f a' b' ;;
      Some (z :: r)
  | _, _ => None
  end.

Definition sumR (l : list R) : R := fold_right Rplus 0 l.

(** Shapes of rectangular arrays. *)
Definition has_shape1 {A : Type} (C : nat) (v : list A) : Prop := length v = C.
Definition has_shape2 {A : Type} (N T : nat) (t : list (list A)) : Prop :=
  length t = N /\ Forall (has_shape1 T) t.
Definition has_shape3 {A : Type} (N T C : nat) (t : list (list (list A))) : Prop :=
  length t = N /\ Forall (has_shape2 T C) t.

(** ** TensorFlow primitives used by the notebook *)

(** [tf.one_hot(indices, depth)]: an index outside [0, depth) yields a row of
    zeros. *)
Definition one_hot_vec (depth : nat) (i : Z) : vec :=
  map (fun k => if (Z.of_nat k =? i)%Z then 1 else 0) (seq 0 depth).

Definition tf_one_hot (indices : ids2) (depth : nat) : tensor3 :=
  map (map (one_hot_vec depth)) indices.

(** [tf.nn.softmax_cross_entropy_with_logits_v2(labels, logits)]: along the
    last axis, minus the sum of labels times the log-softmax of the logits. *)
Definition log_sum_exp (z : vec) : R := ln (sumR (map exp z)).

Definition log_softmax (z : vec) : vec := map (fun x => x - log_sum_exp z) z.

Definition vmul (a b : vec) : option vec :=
  zip_with_exact (fun x y => Some (x * y)) a b.

Definition xent_vec (labels logits : vec) : option R :=
  prods <- vmul labels (log_softmax logits) ;;
  Some (- sumR prods).

Definition tf_softmax_cross_entropy_with_logits_v2 (labels logits : tensor3)
    : option tensor2 :=
  zip_with_exact (zip_with_exact xent_vec) labels logits.

(** The elementwise product of two rank-2 tensors, [loss_tensor *= mask]. *)
Definition tf_multiply (a b : tensor2) : option tensor2 :=
  zip_with_exact vmul a b.

(** [tf.reduce_mean]: the sum of all entries over their number.  On a tensor
    without entries the quotient is 0/0, which TensorFlow reports as NaN;
    what is proved about the value of a mean is stated for tensors with at
    least one entry. *)
Definition tf_reduce_mean (t : tensor2) : R :=
  sumR (concat t) / INR (length (concat t)).

(** [tf.nn.embedding_lookup(emb_mat, indices)]: the row of the matrix at each
    id; an id outside the matrix is an error. *)
Definition lookup_row (emb_mat : tensor2) (i : Z) : option vec :=
  if (i <? 0)%Z then None else nth_error emb_mat (Z.to_nat i).

Fixpoint map_exact {A B : Type} (f : A -> option B) (l : list A)
    : option (list B) :=
  match l with
  | [] => Some []
  | x :: r =>
      y <- f x ;;
      ys <- map_exact f r ;;
      Some (y :: ys)
  end.

Definition tf_nn_embedding_lookup (emb_mat : tensor2) (indices : ids2)
    : option tensor3 :=
  map_exact (map_exact (lookup_row emb_mat)) indices.

(** [tf.argmax(logits, 2)] on logits [N, T, depth]: at every token the
    first index holding the largest entry.  The operation rejects an empty
    class axis.  A nested list without tokens does not show the size of its
    class axis, so [depth], the number of units of the projection that
    produced the logits, is an argument. *)
Fixpoint argmax_from (best_i : nat) (best : R) (i : nat) (l : vec) : nat :=
  match l with
  | [] => best_i
  | x :: r =>
      if Rlt_dec best x then argmax_from i x (S i) r
      else argmax_from best_i best (S i) r
  end.

Definition argmax (v : vec) : option Z :=
  match v with
  | [] => None
  | x :: r => Some (Z.of_nat (argmax_from 0 x 1 r))
  end.

Definition tf_argmax (logits : tensor3) (depth : nat) : option ids2 :=
  if (depth =? 0)%nat then None
  else map_exact (map_exact argmax) logits.

(** [tf.random_normal(shape, mean, stddev)]: entry (i, j) is the mean plus
    the standard deviation times a standard normal draw [z i j]. *)
Record NormalInit : Type := {
  init_mean : R;
  init_stddev : R
}.

Definition variance (ini : NormalInit) : R := init_stddev ini * init_stddev ini.

Definition tf_random_normal (rows cols : nat) (ini : NormalInit)
    (z : nat -> nat -> R) : tensor2 :=
  map (fun i => map (fun j => init_mean ini + init_stddev ini * z i j)
                    (seq 0 cols))
      (seq 0 rows).

(** [tf.nn.dropout(x, keep_prob, noise_shape)] with the noise shape
    [(batch, 1, channels)]: one uniform draw [u n c] in [0, 1) per example
    and channel, shared by all token positions.  The kept entries are scaled
    by [1 / keep_prob]:
    [x / keep_prob * floor(keep_prob + uniform)]. *)
Definition dropout_scale (keep_prob : R) (r : R) : R :=
  IZR (Zfloor (keep_prob + r)).

Definition tf_nn_dropout (x : tensor3) (keep_prob : R) (u : nat -> nat -> R)
    : tensor3 :=
  map (fun '(n, example) =>
         map (fun token =>
                map (fun '(c, v) => v / keep_prob * dropout_scale keep_prob (u n c))
                    (enumerate token))
             example)
      (enumerate x).

(** [tf.layers.conv1d(units, filters, kernel_size, padding)] on one example
    [tokens x channels], stride 1.  The kernel is indexed by
    [offset, input channel, filter], the bias by [filter].  Padding 'same'
    adds [kernel_size - 1] rows of zeros, half of them (rounded down) on the
    left; the output has one row per window of [kernel_size] rows, none when
    the input is shorter than the kernel. *)
Inductive Padding : Type := Valid | Same.

Record ConvWeights : Type := {
  conv_kernel : list (list (list R));
  conv_bias : list R
}.

Definition pad_same (kernel_size : nat) (x : list vec) : list vec :=
  let zero_row := repeat 0 (length (hd [] x)) in
  let total := (kernel_size - 1)%nat in
  let left := (total / 2)%nat in
  repeat zero_row left ++ x ++ repeat zero_row (total - left).

Definition conv_window (w : ConvWeights) (window : list vec) (o : nat) : R :=
  nth o (conv_bias w) 0 +
  sumR (map (fun '(k, token) =>
               sumR (map (fun '(c, v) =>
                            v * nth o (nth c (nth k (conv_kernel w) []) []) 0)
                         (enumerate token)))
            (enumerate window)).

Definition conv1d_example (padding : Padding) (filters kernel_size : nat)
    (w : ConvWeights) (x : list vec) : list vec :=
  let xp := match padding with
            | Valid => x
            | Same => pad_same kernel_size x
            end in
  map (fun t => map (conv_window w (firstn kernel_size (skipn t xp)))
                    (seq 0 filters))
      (seq 0 (length xp + 1 - kernel_size)).

Definition tf_layers_conv1d (units : tensor3) (filters kernel_size : nat)
    (padding : Padding) (w : ConvWeights) : tensor3 :=
  map (conv1d_example padding filters kernel_size w) units.

(** [tf.nn.relu]. *)
Definition relu (x : R) : R := Rmax 0 x.

(** [tf.layers.dense(units, n_out, activation=None)]: kernel indexed by
    [input channel, output], bias by [output]. *)
Record DenseWeights : Type := {
  dense_kernel : list (list R);
  dense_bias : list R
}.

Definition dense_token (n_out : nat) (w : DenseWeights) (token : vec) : vec :=
  map (fun o => nth o (dense_bias w) 0 +
                sumR (map (fun '(c, v) => v * nth o (nth c (dense_kernel w) []) 0)
                          (enumerate token)))
      (seq 0 n_out).

Definition tf_layers_dense (units : tensor3) (n_out : nat) (w : DenseWeights)
    : tensor3 :=
  map (map (dense_token n_out w)) units.

(** ** Padding and masking

    Modelled from the spec: [get_mask = Mask()] and [zero_pad] come from the
    library the notebook imports; their source is not part of the notebook.
    Section 4.3 of the specification gives their contract: the output has
    shape [N, max_len] with [max_len] the largest length of the batch, rows
    are padded on the right with 0, the mask holds 1.0 at real positions and
    0.0 at padding and depends on the lengths only, and an empty batch yields
    an empty array.  The notebook's own run,
    [get_mask([['Try','to','get','the','mask'], ['Check','paddings']])],
    shows rows [1,1,1,1,1] and [1,1,0,0,0]. *)
Definition max_len {A : Type} (batch : list (list A)) : nat :=
  fold_right Nat.max 0%nat (map (@length A) batch).

Definition get_mask {A : Type} (tokens_batch : list (list A)) : tensor2 :=
  map (fun utterance =>
         repeat 1 (length utterance) ++
         repeat 0 (max_len tokens_batch - length utterance))
      tokens_batch.

Definition zero_pad (batch : ids2) : ids2 :=
  map (fun utterance =>
         utterance ++ repeat 0%Z (max_len batch - length utterance))
      batch.

(** ** The notebook's functions *)

(** [get_embeddings(indices, vocabulary_size, emb_dim)] creates the variable
    [emb_mat] from [tf.random_normal(shape=[vocabulary_size, emb_dim],
    mean=0.0, stddev=1.0 / emb_dim)] and returns the lookup of the indices in
    it.  The initializer and the lookup are kept apart: the variable lives in
    the session's weights. *)
Definition get_embeddings_initializer (emb_dim : nat) : NormalInit :=
  {| init_mean := 0; init_stddev := 1 / INR emb_dim |}.

(** The initial value of [emb_mat].  For [emb_dim = 0] the quotient
    [1.0 / emb_dim] raises and no matrix is built. *)
Definition emb_mat_initial (vocabulary_size emb_dim : nat)
    (z : nat -> nat -> R) : option tensor2 :=
  if (emb_dim =? 0)%nat then None
  else Some (tf_random_normal vocabulary_size emb_dim
                              (get_embeddings_initializer emb_dim) z).

Definition get_embeddings (emb_mat : tensor2) (indices : ids2) : option tensor3 :=
  tf_nn_embedding_lookup emb_mat indices.

(** [conv_net(units, n_hidden_list, cnn_filter_width, activation)]: one
    convolution with padding 'same' and one activation per entry of
    [n_hidden_list]; [layers] holds the kernels and biases the loop creates,
    in order. *)
Definition no_weights : ConvWeights := {| conv_kernel := []; conv_bias := [] |}.

Fixpoint conv_net (layers : list ConvWeights) (units : tensor3)
    (n_hidden_list : list nat) (cnn_filter_width : nat)
    (activation : R -> R) : tensor3 :=
  match n_hidden_list with
  | [] => units
  | i :: rest =>
      let units := tf_layers_conv1d units i cnn_filter_width Same
                                    (hd no_weights layers) in
      let units := map (map (map activation)) units in
      conv_net (tl layers) units rest cnn_filter_width activation
  end.

(** [masked_cross_entropy(logits, label_indices, number_of_tags, mask)]. *)
Definition masked_cross_entropy (logits : tensor3) (label_indices : ids2)
    (number_of_tags : nat) (mask : tensor2) : option R :=
  let p := tf_one_hot label_indices number_of_tags in
  loss_tensor <- tf_softmax_cross_entropy_with_logits_v2 p logits ;;
  loss_tensor <- tf_multiply loss_tensor mask ;;
  Some (tf_reduce_mean loss_tensor).

(** ** The class NerNetwork *)

(** The arguments of [__init__] that the graph uses. *)
Record Config : Type := {
  n_tokens : nat;
  n_tags : nat;
  token_emb_dim : nat;
  n_hidden_list : list nat;
  cnn_filter_width : nat
}.

Definition default_config (n_tokens n_tags : nat) : Config :=
  {| n_tokens := n_tokens; n_tags := n_tags; token_emb_dim := 100;
     n_hidden_list := [128%nat]; cnn_filter_width := 7 |}.

(** The trainable variables of the graph. *)
Record Weights : Type := {
  emb_mat : tensor2;
  conv_layers : list ConvWeights;
  dense : DenseWeights
}.

(** A feed dictionary: the value given to each of the five placeholders, if
    any. *)
Record Feed : Type := {
  learning_rate_ph : option R;
  dropout_keep_ph : option R;
  token_ph : option ids2;
  mask_ph : option tensor2;
  y_ph : option ids2
}.

(** The uniform draws of the two dropout operations in one run. *)
Record Noise : Type := {
  emb_noise : nat -> nat -> R;
  top_noise : nat -> nat -> R
}.

Definition unit_interval (u : nat -> nat -> R) : Prop :=
  forall n c, 0 <= u n c < 1.

(** The graph built by [__init__]. *)
Definition logits (cfg : Config) (w : Weights) (feed : Feed) (rng : Noise)
    : option tensor3 :=
  tokens <- token_ph feed ;;
  emb <- get_embeddings (emb_mat w) tokens ;;
  keep <- dropout_keep_ph feed ;;
  let emb := tf_nn_dropout emb keep (emb_noise rng) in
  let units := conv_net (conv_layers w) emb (n_hidden_list cfg)
                        (cnn_filter_width cfg) relu in
  let units := tf_nn_dropout units keep (top_noise rng) in
  Some (tf_layers_dense units (n_tags cfg) (dense w)).

Definition predictions (cfg : Config) (w : Weights) (feed : Feed) (rng : Noise)
    : option ids2 :=
  lg <- logits cfg w feed rng ;;
  tf_argmax lg (n_tags cfg).

Definition loss (cfg : Config) (w : Weights) (feed : Feed) (rng : Noise)
    : option R :=
  lg <- logits cfg w feed rng ;;
  tokens <- token_ph feed ;;
  mask <- mask_ph feed ;;
  masked_cross_entropy lg tokens (n_tags cfg) mask.

(** [tf.train.AdamOptimizer()] is built without arguments, so its learning
    rate is the constructor's default. *)
Definition adam_default_learning_rate : R := 1 / 1000.

(** The feed dictionaries the two entry points build. *)
Definition call_feed_dict (tok_batch : ids2) (mask_batch : tensor2) : Feed :=
  {| learning_rate_ph := None;
     dropout_keep_ph := Some 1;
     token_ph := Some tok_batch;
     mask_ph := Some mask_batch;
     y_ph := None |}.

Definition train_feed_dict (tok_batch tag_batch : ids2) (mask_batch : tensor2)
    (dropout_keep_prob learning_rate : R) : Feed :=
  {| learning_rate_ph := Some learning_rate;
     dropout_keep_ph := Some dropout_keep_prob;
     token_ph := Some tok_batch;
     mask_ph := Some mask_batch;
     y_ph := Some tag_batch |}.

Section Session.

(** The optimizer's slot variables, and one application of
    [AdamOptimizer(learning_rate).minimize(loss)] to the slots and the
    trainable variables. *)
Variable Slots : Type.
Variable adam_minimize :
  R -> (Weights -> option R) -> Slots * Weights -> Slots * Weights.

Record NerNetwork : Type := {
  config : Config;
  state : Slots * Weights
}.

Definition weights (net : NerNetwork) : Weights := snd (state net).

(** [sess.run(self.train_op, feed_dict)]: a run whose loss fails to
    evaluate raises and leaves the variables as they are. *)
Definition train_op (net : NerNetwork) (feed : Feed) (rng : Noise)
    : option NerNetwork :=
  let objective := fun w => loss (config net) w feed rng in
  _ <- objective (weights net) ;;
  Some {| config := config net;
          state := adam_minimize adam_default_learning_rate objective
                                 (state net) |}.

(** [NerNetwork.__call__(tok_batch, mask_batch)]. *)
Definition call (net : NerNetwork) (tok_batch : ids2) (mask_batch : tensor2)
    (rng : Noise) : option ids2 :=
  predictions (config net) (weights net)
              (call_feed_dict tok_batch mask_batch) rng.

(** [NerNetwork.train_on_batch(tok_batch, tag_batch, mask_batch,
    dropout_keep_prob, learning_rate)]. *)
Definition train_on_batch (net : NerNetwork) (tok_batch tag_batch : ids2)
    (mask_batch : tensor2) (dropout_keep_prob learning_rate : R)
    (rng : Noise) : option NerNetwork :=
  train_op net
           (train_feed_dict tok_batch tag_batch mask_batch
                            dropout_keep_prob learning_rate)
           rng.

End Session.

Arguments config {Slots} _.
Arguments state {Slots} _.
Arguments weights {Slots} _.
Arguments call {Slots} _ _ _ _.
Arguments train_op {Slots} _ _ _ _.
Arguments train_on_batch {Slots} _ _ _ _ _ _ _ _.

(** The constant tensor of shape [N, T]: the all-ones and the all-zeros
    masks. *)
Definition constant2 (v : R) (N T : nat) : tensor2 := repeat (repeat v T) N.

(** The weighted sum of two rank-2 tensors, entry by entry. *)
Definition weighted_sum (a b : tensor2) : R :=
  sumR (map (fun '(x, y) => x * y) (combine (concat a) (concat b))).

(** The forward pass with dropout disabled, in the words of the
    specification: embedding lookup, the convolution stack, the linear
    projection. *)
Definition forward_without_dropout (cfg : Config) (w : Weights)
    (tokens : ids2) : option tensor3 :=
  emb <- get_embeddings (emb_mat w) tokens ;;
  Some (tf_layers_dense
          (conv_net (conv_layers w) emb (n_hidden_list cfg)
                    (cnn_filter_width cfg) relu)
          (n_tags cfg) (dense w)).

(** The forward pass of a training step, in the words of the
    specification: embedding lookup, dropout, the convolution stack, dropout,
    the linear projection. *)
Definition forward_with_dropout (cfg : Config) (w : Weights)
    (tokens : ids2) (keep_prob : R) (rng : Noise) : option tensor3 :=
  emb <- get_embeddings (emb_mat w) tokens ;;
  Some (tf_layers_dense
          (tf_nn_dropout
             (conv_net (conv_layers w)
                       (tf_nn_dropout emb keep_prob (emb_noise rng))
                       (n_hidden_list cfg) (cnn_filter_width cfg) relu)
             keep_prob (top_noise rng))
          (n_tags cfg) (dense w)).

(** Ids that the embedding matrix can look up. *)
Definition ids_in_range (vocabulary_size : nat) (indices : ids2) : Prop :=
  Forall (Forall (fun i => (0 <= i < Z.of_nat vocabulary_size)%Z)) indices.

(** ** Evaluation *)

Section Evaluation.

(** The fitted vocabularies and the metric are library objects: the token
    vocabulary maps a token to its id, the tag vocabulary maps an id back
    to its tag, and [precision_recall_f1] scores two flat tag lists. *)
Variable token_vocab : string -> Z.
Variable tag_vocab : Z -> string.
Variable Metrics : Type.
Variable precision_recall_f1 : list string -> list string -> Metrics.

Definition batch : Type := (list (list string) * list (list string))%type.

(** The body of the [for] loop of [eval_valid], threading the two
    accumulators [total_true] and [total_pred]. *)
Fixpoint eval_loop (network : ids2 -> tensor2 -> option ids2)
    (batch_generator : list batch) (total_true total_pred : list string)
    : option (list string * list string) :=
  match batch_generator with
  | [] => Some (total_true, total_pred)
  | (x, y_true) :: rest =>
      let x_inds := map (map token_vocab) x in
      let x_batch := zero_pad x_inds in
      let mask := get_mask x in
      y_inds <- network x_batch mask ;;
      let y_inds := map (fun '(x_, y_) => firstn (length x_) y_)
                        (combine x y_inds) in
      let y_pred := map (map tag_vocab) y_inds in
      eval_loop network rest (total_true ++ concat y_true)
                (total_pred ++ concat y_pred)
  end.

(** [eval_valid(network, batch_generator)]; the value is [res], the metrics
    the function computes and prints. *)
Definition eval_valid (network : ids2 -> tensor2 -> option ids2)
    (batch_generator : list batch) : option Metrics :=
  totals <- eval_loop network batch_generator [] [] ;;
  Some (precision_recall_f1 (fst totals) (snd totals)).

(** The network's answer on each batch of the generator. *)
Definition answers (network : ids2 -> tensor2 -> option ids2)
    (batch_generator : list batch) (preds : list ids2) : Prop :=
  Forall2 (fun (b : batch) p =>
             network (zero_pad (map (map token_vocab) (fst b)))
                     (get_mask (fst b)) = Some p)
          batch_generator preds.

(** The true tags and the predicted tags of a whole split, in the words
    of the specification: each predicted row is cut to the length of its
    sentence and then decoded. *)
Definition all_true (batch_generator : list batch) : list string :=
  concat (map (fun b : batch => concat (snd b)) batch_generator).

Definition truncated_tags (x : list (list string)) (y_inds : ids2)
    : list string :=
  concat (map (fun '(x_, y_) => map tag_vocab (firstn (length x_) y_))
              (combine x y_inds)).

Definition all_pred (batch_generator : list batch) (preds : list ids2)
    : list string :=
  concat (map (fun '(b, p) => truncated_tags (fst b) p)
              (combine batch_generator preds)).

End Evaluation.

(** ** The training loop and the inference cell

    The last cells of the notebook are top-level statements.  The batches a
    generator yields in one epoch (the library iterator shuffles them) and
    the random draws of each run are inputs. *)

(** One epoch: the training batches with the draws of their training
    steps, the validation batches, and the draws of the validation runs. *)
Record Epoch : Type := {
  train_batches : list (batch * Noise);
  valid_batches : list batch;
  valid_noise : Noise
}.

(** The vocabulary maps every token into the embedding matrix. *)
Definition vocab_in_range (token_vocab : string -> Z) (w : Weights) : Prop :=
  forall s, (0 <= token_vocab s < Z.of_nat (length (emb_mat w)))%Z.

(** The optimizer keeps the number of rows of the embedding matrix. *)
Definition keeps_vocabulary {Slots : Type}
    (adam_minimize :
       R -> (Weights -> option R) -> Slots * Weights -> Slots * Weights)
    : Prop :=
  forall rate objective st,
    length (emb_mat (snd (adam_minimize rate objective st)))
    = length (emb_mat (snd st)).

Section Cells.

Variable Slots : Type.
Variable adam_minimize :
  R -> (Weights -> option R) -> Slots * Weights -> Slots * Weights.

(** [token_vocab] and [tag_vocab] applied to strings give ids, [tag_vocab]
    applied to ids gives tags. *)
Variable token_vocab : string -> Z.
Variable tag_index : string -> Z.
Variable tag_vocab : Z -> string.
Variable Metrics : Type.
Variable precision_recall_f1 : list string -> list string -> Metrics.

(** The body of the inner [for] loop of the training cell. *)
Definition train_on_samples (net : NerNetwork Slots) (b : batch)
    (rng : Noise) (dropout_keep_prob learning_rate : R)
    : option (NerNetwork Slots) :=
  let x := fst b in
  let y := snd b in
  let x_inds := map (map token_vocab) x in
  let y_inds := map (map tag_index) y in
  let x_batch := zero_pad x_inds in
  let y_batch := zero_pad y_inds in
  let mask := get_mask x in
  train_on_batch adam_minimize net x_batch y_batch mask
                 dropout_keep_prob learning_rate rng.

(** The inner loop: one training step per batch, in order. *)
Fixpoint train_epoch (net : NerNetwork Slots) (batches : list (batch * Noise))
    (dropout_keep_prob learning_rate : R) : option (NerNetwork Slots) :=
  match batches with
  | [] => Some net
  | (b, rng) :: rest =>
      net' <- train_on_samples net b rng dropout_keep_prob learning_rate ;;
      train_epoch net' rest dropout_keep_prob learning_rate
  end.

(** The network as [eval_valid] calls it. *)
Definition as_network (net : NerNetwork Slots) (rng : Noise)
    : ids2 -> tensor2 -> option ids2 :=
  fun x_batch mask => call net x_batch mask rng.

(** The training cell: per epoch the inner loop, the evaluation on the
    validation split, and the update
    [learning_rate = learning_rate * np.exp(-learning_rate_decay * global_step)].
    The value is the trained network with the last learning rate. *)
Fixpoint training_loop (net : NerNetwork Slots) (epochs : list Epoch)
    (dropout_keep_prob learning_rate learning_rate_decay global_step : R)
    : option (NerNetwork Slots * R) :=
  match epochs with
  | [] => Some (net, learning_rate)
  | e :: rest =>
      net' <- train_epoch net (train_batches e)
                          dropout_keep_prob learning_rate ;;
      _ <- eval_valid token_vocab tag_vocab Metrics precision_recall_f1
                      (as_network net' (valid_noise e)) (valid_batches e) ;;
      training_loop net' rest dropout_keep_prob
                    (learning_rate * exp (- learning_rate_decay * global_step))
                    learning_rate_decay global_step
  end.

(** The inference cell, from [x = [sentence.split()]] on: the tags printed
    for the tokens of one sentence. *)
Definition tag_sentence (net : NerNetwork Slots) (tokens : list string)
    (rng : Noise) : option (list string) :=
  let x := [tokens] in
  let x_inds := map (map token_vocab) x in
  let x_batch := zero_pad x_inds in
  let mask := get_mask x in
  y_inds <- call net x_batch mask rng ;;
  nth_error (map (map tag_vocab) y_inds) 0.

End Cells.

Arguments train_on_samples {Slots} _ _ _ _ _ _ _ _.
Arguments train_epoch {Slots} _ _ _ _ _ _ _.
Arguments as_network {Slots} _ _.
Arguments training_loop {Slots} _ _ _ _ {Metrics} _ _ _ _ _ _ _.
Arguments tag_sentence {Slots} _ _ _ _ _.

(** ** Small networks and inputs for the examples *)

Definition toy_weights : Weights :=
  {| emb_mat := [[0]; [0]; [0]];
     conv_layers := [ {| conv_kernel := [[[0]]]; conv_bias := [0] |} ];
     dense := {| dense_kernel := [[0; 0]]; dense_bias := [0; 1] |} |}.

Definition toy_config : Config :=
  {| n_tokens := 3; n_tags := 2; token_emb_dim := 1;
     n_hidden_list := [1%nat]; cnn_filter_width := 1 |}.

Definition no_noise : Noise :=
  {| emb_noise := fun _ _ => 0; top_noise := fun _ _ => 0 |}.

Definition six_token_weights : Weights :=
  {| emb_mat := [[0]; [0]; [0]; [0]; [0]; [0]];
     conv_layers := [ {| conv_kernel := [[[0]]]; conv_bias := [0] |} ];
     dense := {| dense_kernel := [[0; 0]]; dense_bias := [0; 1] |} |}.

Definition toy_network : NerNetwork unit :=
  {| config := toy_config; state := (tt, toy_weights) |}.

(** A network with a kernel of width 3 and weights that are not zero: the
    convolution adds each token to its two neighbours, the projection maps a
    unit [v] to the logits [v; - v]. *)
Definition small_config : Config :=
  {| n_tokens := 3; n_tags := 2; token_emb_dim := 1;
     n_hidden_list := [1%nat]; cnn_filter_width := 3 |}.

Definition small_weights : Weights :=
  {| emb_mat := [[1]; [2]; [3]];
     conv_layers := [ {| conv_kernel := [[[1]]; [[1]]; [[1]]];
                         conv_bias := [0] |} ];
     dense := {| dense_kernel := [[1; -1]]; dense_bias := [0; 0] |} |}.

Definition small_network : NerNetwork unit :=
  {| config := small_config; state := (tt, small_weights) |}.

(** Draws that keep everything at keep probability 1/2, and draws that drop
    everything. *)
Definition keeping_noise : Noise :=
  {| emb_noise := fun _ _ => 3 / 4; top_noise := fun _ _ => 3 / 4 |}.

Definition dropping_noise : Noise :=
  {| emb_noise := fun _ _ => 1 / 4; top_noise := fun _ _ => 1 / 4 |}.

(** An optimizer that records the learning rate it is built with. *)
Definition recording_optimizer
    (rate : R) (objective : Weights -> option R) (st : R * Weights)
    : R * Weights :=
  (rate, snd st).

(** A tagger that answers tag 0 at every position of the padded batch, a
    vocabulary of two tags, and a split of one batch of two sentences. *)
Definition constant_tagger (x_batch : ids2) (mask : tensor2) : option ids2 :=
  Some (map (map (fun _ => 0%Z)) x_batch).

Definition two_tags (i : Z) : string :=
  if (i =? 0)%Z then "O"%string else "B-PER"%string.

Definition one_batch : list batch :=
  [([["Peter"; "Blackburn"]; ["BRUSSELS"]],
    [["B-PER"; "I-PER"]; ["B-LOC"]])]%string.

(** An optimizer that leaves the state as it is, and an epoch of one
    training batch followed by the validation on the same batch. *)
Definition idle_optimizer
    (rate : R) (objective : Weights -> option R) (st : unit * Weights)
    : unit * Weights :=
  st.

Definition one_epoch : Epoch :=
  {| train_batches := map (fun b => (b, no_noise)) one_batch;
     valid_batches := one_batch;
     valid_noise := no_noise |}.

(** * Properties *)

(** Shape conditions on explicit arrays are settled by unfolding. *)
Ltac concrete_shape :=
  unfold has_shape3, has_shape2, has_shape1, ids_in_range; simpl;
  repeat (split || constructor); try lia.

(** ** Lists, sums and shapes *)

Lemma sumR_app (a b : list R) : sumR (a ++ b) = sumR a + sumR b.
Proof.
  induction a as [|x a IH]; simpl.
  - lra.
  - rewrite IH. lra.
Qed.

Lemma sumR_repeat (v : R) (n : nat) : sumR (repeat v n) = INR n * v.
Proof.
  induction n as [|n IH].
  - simpl. lra.
  - rewrite S_INR. simpl. rewrite IH. lra.
Qed.

Lemma length_le_max_len {A : Type} (batch : list (list A)) (u : list A) :
  In u batch -> (length u <= max_len batch)%nat.
Proof.
  unfold max_len.
  induction batch as [|v batch IH]; simpl; intros Hin.
  - contradiction.
  - destruct Hin as [-> | Hin].
    + apply Nat.le_max_l.
    + specialize (IH Hin). lia.
Qed.

Lemma max_len_map {A B : Type} (f : A -> B) (batch : list (list A)) :
  max_len (map (map f) batch) = max_len batch.
Proof.
  unfold max_len. rewrite map_map. f_equal.
  apply map_ext. intros u. apply length_map.
Qed.

Lemma nth_mask_row (a b j : nat) :
  nth j (repeat 1 a ++ repeat 0 b) 0 = 1 <-> (j < a)%nat.
Proof.
  destruct (Nat.lt_ge_cases j a) as [Hlt | Hge].
  - rewrite app_nth1 by (rewrite repeat_length; exact Hlt).
    rewrite nth_repeat_lt by exact Hlt. tauto.
  - rewrite app_nth2 by (rewrite repeat_length; exact Hge).
    rewrite nth_repeat. split; [lra | lia].
Qed.

(** ** The mask of a padded batch *)

Lemma sum_mask_row (a b : nat) : sumR (repeat 1 a ++ repeat 0 b) = INR a.
Proof. rewrite sumR_app, !sumR_repeat. lra. Qed.

Lemma get_mask_shape {A : Type} (tokens_batch : list (list A)) :
  has_shape2 (length tokens_batch) (max_len tokens_batch)
             (get_mask tokens_batch).
Proof.
  unfold has_shape2, has_shape1, get_mask. split.
  - apply length_map.
  - apply Forall_forall. intros row Hrow.
    apply in_map_iff in Hrow. destruct Hrow as [u [<- Hu]].
    rewrite length_app, !repeat_length.
    apply length_le_max_len in Hu. lia.
Qed.

Lemma zero_pad_shape (batch : ids2) :
  has_shape2 (length batch) (max_len batch) (zero_pad batch).
Proof.
  unfold has_shape2, has_shape1, zero_pad. split.
  - apply length_map.
  - apply Forall_forall. intros row Hrow.
    apply in_map_iff in Hrow. destruct Hrow as [u [<- Hu]].
    rewrite length_app, repeat_length.
    apply length_le_max_len in Hu. lia.
Qed.

(** C7. In the mask of a batch, row [i] has the length of the padded batch,
    its entry [j] is 1 exactly when [j] is below the original length of
    sequence [i], and the entries of the row sum to that length.  The padded
    id batch has the same row, with the ids first and zeros after them. *)
Theorem get_mask_marks_real_positions
    (tokens_batch : list (list string)) (token_vocab : string -> Z)
    (i : nat) (utterance : list string) :
  nth_error tokens_batch i = Some utterance ->
  exists row padded,
    nth_error (get_mask tokens_batch) i = Some row /\
    nth_error (zero_pad (map (map token_vocab) tokens_batch)) i = Some padded /\
    length row = max_len tokens_batch /\
    length padded = length row /\
    (forall j, (j < max_len tokens_batch)%nat ->
               nth j row 0 = 1 <-> (j < length utterance)%nat) /\
    (forall j, (length utterance <= j)%nat -> nth j row 0 = 0) /\
    sumR row = INR (length utterance) /\
    firstn (length utterance) padded = map token_vocab utterance /\
    (forall j, (length utterance <= j)%nat -> nth j padded 0%Z = 0%Z).
Proof.
  intros Hi.
  assert (Hle : (length utterance <= max_len tokens_batch)%nat).
  { apply length_le_max_len. eapply nth_error_In. exact Hi. }
  exists (repeat 1 (length utterance) ++
          repeat 0 (max_len tokens_batch - length utterance)).
  exists (map token_vocab utterance ++
          repeat 0%Z (max_len tokens_batch - length utterance)).
  repeat split.
  - unfold get_mask. rewrite nth_error_map, Hi. reflexivity.
  - unfold zero_pad. rewrite !nth_error_map, Hi. simpl.
    rewrite max_len_map, length_map. reflexivity.
  - rewrite length_app, !repeat_length. lia.
  - rewrite !length_app, !repeat_length, length_map. reflexivity.
  - apply nth_mask_row.
  - apply nth_mask_row.
  - intros j Hj.
    rewrite app_nth2 by (rewrite repeat_length; exact Hj).
    apply nth_repeat.
  - apply sum_mask_row.
  - rewrite firstn_app, length_map, Nat.sub_diag. simpl.
    rewrite app_nil_r. apply firstn_all2. rewrite length_map. lia.
  - intros j Hj.
    rewrite app_nth2 by (rewrite length_map; exact Hj).
    apply nth_repeat.
Qed.

(** The padding example of the specification: lengths 2 and 5. *)
Example get_mask_lengths_2_5 :
  get_mask [[11; 12]; [21; 22; 23; 24; 25]]%Z
    = [[1; 1; 0; 0; 0]; [1; 1; 1; 1; 1]] /\
  zero_pad [[11; 12]; [21; 22; 23; 24; 25]]%Z
    = [[11; 12; 0; 0; 0]; [21; 22; 23; 24; 25]]%Z.
Proof. split; reflexivity. Qed.

(** The notebook's own run of [get_mask]. *)
Example get_mask_notebook_run :
  get_mask [["Try"; "to"; "get"; "the"; "mask"]; ["Check"; "paddings"]]%string
  = [[1; 1; 1; 1; 1]; [1; 1; 0; 0; 0]].
Proof. reflexivity. Qed.

Lemma get_mask_marks_real_positions_witness :
  nth_error [["Try"; "to"; "get"; "the"; "mask"]; ["Check"; "paddings"]]%string 1
    = Some ["Check"; "paddings"]%string /\
  exists row padded,
    nth_error (get_mask [["Try"; "to"; "get"; "the"; "mask"];
                         ["Check"; "paddings"]]%string) 1 = Some row /\
    nth_error (zero_pad (map (map (fun _ => 7%Z))
                 [["Try"; "to"; "get"; "the"; "mask"];
                  ["Check"; "paddings"]]%string)) 1 = Some padded /\
    length row = 5%nat /\
    length padded = length row /\
    (forall j, (j < 5)%nat -> nth j row 0 = 1 <-> (j < 2)%nat) /\
    (forall j, (2 <= j)%nat -> nth j row 0 = 0) /\
    sumR row = INR 2 /\
    firstn 2 padded = [7%Z; 7%Z] /\
    (forall j, (2 <= j)%nat -> nth j padded 0%Z = 0%Z).
Proof.
  split; [reflexivity |].
  exact (get_mask_marks_real_positions
           [["Try"; "to"; "get"; "the"; "mask"]; ["Check"; "paddings"]]%string
           (fun _ => 7%Z) 1 ["Check"; "paddings"]%string eq_refl).
Defined.

(** ** Elementwise operations on operands of one shape *)

Lemma zip_with_exact_total {A B C : Type} (f : A -> B -> option C)
    (P : C -> Prop) (a : list A) (b : list B) :
  Forall2 (fun x y => exists z, f x y = Some z /\ P z) a b ->
  exists r, zip_with_exact f a b = Some r /\ length r = length a /\ Forall P r.
Proof.
  induction 1 as [|x y a b [z [Hz Pz]] _ [r [Hr [Hlen HP]]]]; simpl.
  - exists []. auto.
  - exists (z :: r). rewrite Hz, Hr. simpl. auto.
Qed.

Lemma Forall2_same_shape {A B : Type} (P : A -> Prop) (Q : B -> Prop)
    (a : list A) (b : list B) :
  length a = length b -> Forall P a -> Forall Q b ->
  Forall2 (fun x y => P x /\ Q y) a b.
Proof.
  revert b. induction a as [|x a IH]; intros [|y b] Hlen Ha Hb;
    try discriminate; constructor.
  - inversion Ha; inversion Hb; auto.
  - inversion Ha; inversion Hb; subst. apply IH; auto.
Qed.

Lemma vmul_combine (a b : vec) :
  length a = length b ->
  vmul a b = Some (map (fun '(x, y) => x * y) (combine a b)).
Proof.
  unfold vmul. revert b.
  induction a as [|x a IH]; intros [|y b] Hlen; try discriminate; simpl.
  - reflexivity.
  - rewrite IH by (simpl in Hlen; lia). reflexivity.
Qed.

Lemma vmul_ones (v : vec) (T : nat) :
  length v = T -> vmul v (repeat 1 T) = Some v.
Proof.
  intros <-. unfold vmul.
  induction v as [|x v IH]; simpl.
  - reflexivity.
  - rewrite IH. simpl. rewrite Rmult_1_r. reflexivity.
Qed.

Lemma vmul_zeros (v : vec) (T : nat) :
  length v = T -> vmul v (repeat 0 T) = Some (repeat 0 T).
Proof.
  intros <-. unfold vmul.
  induction v as [|x v IH]; simpl.
  - reflexivity.
  - rewrite IH. simpl. rewrite Rmult_0_r. reflexivity.
Qed.

Lemma tf_multiply_ones (a : tensor2) (N T : nat) :
  has_shape2 N T a -> tf_multiply a (constant2 1 N T) = Some a.
Proof.
  unfold tf_multiply, constant2. intros [<- Hrows].
  induction a as [|r a IH]; simpl.
  - reflexivity.
  - inversion Hrows as [|? ? Hr Ha]; subst.
    rewrite (vmul_ones r T Hr). simpl. rewrite (IH Ha). reflexivity.
Qed.

Lemma tf_multiply_zeros (a : tensor2) (N T : nat) :
  has_shape2 N T a -> tf_multiply a (constant2 0 N T) = Some (constant2 0 N T).
Proof.
  unfold tf_multiply, constant2. intros [<- Hrows].
  induction a as [|r a IH]; simpl.
  - reflexivity.
  - inversion Hrows as [|? ? Hr Ha]; subst.
    rewrite (vmul_zeros r T Hr). simpl. rewrite (IH Ha). reflexivity.
Qed.

Lemma combine_app_same {A B : Type} (a a' : list A) (b b' : list B) :
  length a = length b ->
  combine (a ++ a') (b ++ b') = combine a b ++ combine a' b'.
Proof.
  revert b. induction a as [|x a IH]; intros [|y b] Hlen; try discriminate.
  - reflexivity.
  - simpl. rewrite IH by (simpl in Hlen; lia). reflexivity.
Qed.

Lemma tf_multiply_rect (a b : tensor2) (N T : nat) :
  has_shape2 N T a -> has_shape2 N T b ->
  exists m, tf_multiply a b = Some m /\
            has_shape2 N T m /\
            concat m = map (fun '(x, y) => x * y) (combine (concat a) (concat b)).
Proof.
  unfold tf_multiply, has_shape2, has_shape1. revert b N.
  induction a as [|r a IH]; intros [|s b] N [Hn Ha] [Hm Hb];
    simpl in Hn, Hm; try lia.
  - exists []. simpl. auto.
  - inversion Ha as [|? ? Hr Ha']; inversion Hb as [|? ? Hs Hb']; subst.
    destruct (IH b (length a)) as [m [Hmul [[Hlen Hrows] Hcat]]];
      [split; [reflexivity | exact Ha'] | split; [lia | exact Hb'] |].
    exists (map (fun '(x, y) => x * y) (combine r s) :: m).
    simpl. rewrite (vmul_combine r s) by congruence. simpl. rewrite Hmul.
    repeat split.
    + simpl. congruence.
    + constructor; [| exact Hrows].
      rewrite length_map, length_combine. rewrite Hs. apply Nat.min_id.
    + rewrite Hcat, combine_app_same by congruence.
      rewrite map_app. reflexivity.
Qed.

Lemma length_concat_rect {A : Type} (t : list (list A)) (N T : nat) :
  has_shape2 N T t -> length (concat t) = (N * T)%nat.
Proof.
  unfold has_shape2, has_shape1. revert N.
  induction t as [|r t IH]; intros N [<- Hrows]; simpl.
  - reflexivity.
  - inversion Hrows; subst. rewrite length_app.
    rewrite (IH (length t)) by auto. reflexivity.
Qed.

Lemma concat_constant2 (v : R) (N T : nat) :
  concat (constant2 v N T) = repeat v (N * T).
Proof.
  unfold constant2. induction N as [|N IH]; simpl.
  - reflexivity.
  - rewrite IH, repeat_app. reflexivity.
Qed.

Lemma constant2_shape (v : R) (N T : nat) : has_shape2 N T (constant2 v N T).
Proof.
  unfold has_shape2, has_shape1, constant2. split.
  - apply repeat_length.
  - apply Forall_forall. intros r Hr. apply repeat_spec in Hr. subst.
    apply repeat_length.
Qed.

(** The per-token cross-entropy of logits [N, T, n] against the one-hot
    encoding of labels [N, T] is defined and has shape [N, T]. *)
Lemma length_one_hot_vec (depth : nat) (i : Z) :
  length (one_hot_vec depth i) = depth.
Proof. unfold one_hot_vec. rewrite length_map. apply length_seq. Qed.

Lemma xent_vec_defined (labels logits : vec) :
  length labels = length logits ->
  exists x, xent_vec labels logits = Some x.
Proof.
  intros Hlen. unfold xent_vec.
  rewrite vmul_combine by (unfold log_softmax; rewrite length_map; exact Hlen).
  simpl. eauto.
Qed.

Lemma cross_entropy_shape (logits : tensor3) (labels : ids2) (n N T : nat) :
  has_shape3 N T n logits -> has_shape2 N T labels ->
  exists ce,
    tf_softmax_cross_entropy_with_logits_v2 (tf_one_hot labels n) logits
      = Some ce /\
    has_shape2 N T ce.
Proof.
  unfold tf_softmax_cross_entropy_with_logits_v2, tf_one_hot.
  intros [HN Hlog] [HN' Hlab].
  destruct (zip_with_exact_total (zip_with_exact xent_vec) (has_shape1 T)
              (map (map (one_hot_vec n)) labels) logits) as [ce [Hce [Hlen Hrows]]].
  - assert (Hboth : Forall2 (fun x y => has_shape1 T x /\ has_shape2 T n y)
                            labels logits)
      by (apply Forall2_same_shape; [congruence | assumption | assumption]).
    clear - Hboth. induction Hboth as [|row ex labels logits [Hrow [HT Hex]] _ IH];
      simpl; constructor; [| exact IH].
    destruct (zip_with_exact_total xent_vec (fun _ => True)
                (map (one_hot_vec n) row) ex) as [r [Hr [Hlen _]]].
    + assert (Hboth : Forall2 (fun (x : Z) y => True /\ has_shape1 n y) row ex).
      { apply Forall2_same_shape.
        - unfold has_shape1 in *. congruence.
        - apply Forall_forall. auto.
        - exact Hex. }
      clear - Hboth. induction Hboth as [|i z row ex [_ Hz] _ IH];
        simpl; constructor; [| exact IH].
      destruct (xent_vec_defined (one_hot_vec n i) z) as [x Hx].
      * rewrite length_one_hot_vec. symmetry. exact Hz.
      * exists x. auto.
    + exists r. split; [exact Hr |].
      unfold has_shape1 in *. rewrite Hlen, length_map. exact Hrow.
  - exists ce. split; [exact Hce |]. split; [| exact Hrows].
    rewrite Hlen, length_map. exact HN'.
Qed.

(** ** The masked loss *)

(** C4. For logits [N, T, n], labels [N, T] and a mask [N, T], the loss is
    the sum of the masked per-token cross-entropies divided by the number
    [N * T] of all entries, whatever the number of real tokens; with the
    all-ones mask it is the plain mean of the per-token cross-entropy. *)
Theorem masked_cross_entropy_mean_over_all_entries
    (logits : tensor3) (label_indices : ids2) (number_of_tags : nat)
    (mask : tensor2) (N T : nat) :
  has_shape3 N T number_of_tags logits ->
  has_shape2 N T label_indices ->
  has_shape2 N T mask ->
  exists ce,
    tf_softmax_cross_entropy_with_logits_v2
      (tf_one_hot label_indices number_of_tags) logits = Some ce /\
    has_shape2 N T ce /\
    masked_cross_entropy logits label_indices number_of_tags mask
      = Some (weighted_sum ce mask / INR (N * T)) /\
    masked_cross_entropy logits label_indices number_of_tags (constant2 1 N T)
      = Some (tf_reduce_mean ce).
Proof.
  intros Hlogits Hlabels Hmask.
  destruct (cross_entropy_shape logits label_indices number_of_tags N T
              Hlogits Hlabels) as [ce [Hce Hshape]].
  exists ce. repeat split; try exact Hce; try apply Hshape.
  - destruct (tf_multiply_rect ce mask N T Hshape Hmask)
      as [m [Hmul [Hm Hcat]]].
    unfold masked_cross_entropy. rewrite Hce. simpl. rewrite Hmul. simpl.
    unfold tf_reduce_mean, weighted_sum.
    rewrite (length_concat_rect m N T Hm), Hcat. reflexivity.
  - unfold masked_cross_entropy. rewrite Hce. simpl.
    rewrite (tf_multiply_ones ce N T Hshape). reflexivity.
Qed.

(** One real token and one padded position: the loss is half the
    cross-entropy of the real token, [ln 2 / 2], not [ln 2]. *)
Example masked_cross_entropy_one_of_two :
  masked_cross_entropy [[[0; 0]; [0; 0]]] [[0%Z; 1%Z]] 2 [[1; 0]]
  = Some (ln 2 / 2).
Proof.
  unfold masked_cross_entropy, tf_reduce_mean. simpl.
  unfold log_sum_exp. simpl. rewrite exp_0.
  replace (1 + (1 + 0)) with 2 by lra.
  f_equal. field.
Qed.

Lemma masked_cross_entropy_mean_over_all_entries_witness :
  exists ce,
    tf_softmax_cross_entropy_with_logits_v2
      (tf_one_hot [[0%Z; 1%Z]] 2) [[[0; 0]; [0; 0]]] = Some ce /\
    has_shape2 1 2 ce /\
    masked_cross_entropy [[[0; 0]; [0; 0]]] [[0%Z; 1%Z]] 2 [[1; 0]]
      = Some (weighted_sum ce [[1; 0]] / INR (1 * 2)) /\
    masked_cross_entropy [[[0; 0]; [0; 0]]] [[0%Z; 1%Z]] 2 (constant2 1 1 2)
      = Some (tf_reduce_mean ce).
Proof.
  apply (masked_cross_entropy_mean_over_all_entries
           [[[0; 0]; [0; 0]]] [[0%Z; 1%Z]] 2 [[1; 0]] 1 2);
    concrete_shape.
Defined.

(** C9. With the all-zeros mask the loss of a batch with at least one
    position is 0, whatever the logits and the labels.  (The mean of a
    tensor without entries is the quotient 0/0.) *)
Theorem masked_cross_entropy_zero_mask
    (logits : tensor3) (label_indices : ids2) (number_of_tags : nat)
    (N T : nat) :
  has_shape3 N T number_of_tags logits ->
  has_shape2 N T label_indices ->
  (0 < N * T)%nat ->
  masked_cross_entropy logits label_indices number_of_tags (constant2 0 N T)
    = Some 0.
Proof.
  intros Hlogits Hlabels Hpos.
  destruct (cross_entropy_shape logits label_indices number_of_tags N T
              Hlogits Hlabels) as [ce [Hce Hshape]].
  unfold masked_cross_entropy. rewrite Hce. simpl.
  rewrite (tf_multiply_zeros ce N T Hshape). simpl.
  unfold tf_reduce_mean.
  rewrite concat_constant2, sumR_repeat, repeat_length.
  f_equal. field. apply not_0_INR. lia.
Qed.

Lemma masked_cross_entropy_zero_mask_witness :
  masked_cross_entropy [[[3; -1]; [0; 2]]] [[1%Z; 0%Z]] 2 (constant2 0 1 2)
    = Some 0.
Proof.
  apply (masked_cross_entropy_zero_mask [[[3; -1]; [0; 2]]] [[1%Z; 0%Z]] 2 1 2);
    concrete_shape.
Defined.

(** ** Shapes through the network *)

Lemma map_exact_total {A B : Type} (f : A -> option B) (P : B -> Prop)
    (l : list A) :
  Forall (fun x => exists y, f x = Some y /\ P y) l ->
  exists r, map_exact f l = Some r /\ length r = length l /\ Forall P r.
Proof.
  induction 1 as [|x l [y [Hy Py]] _ [r [Hr [Hlen HP]]]]; simpl.
  - exists []. auto.
  - exists (y :: r). rewrite Hy, Hr. simpl. auto.
Qed.

Lemma lookup_row_defined (emb_mat : tensor2) (i : Z) :
  (0 <= i < Z.of_nat (length emb_mat))%Z ->
  exists row, lookup_row emb_mat i = Some row.
Proof.
  intros Hi. unfold lookup_row.
  destruct (Z.ltb_spec i 0) as [Hneg | _]; [lia |].
  destruct (nth_error emb_mat (Z.to_nat i)) as [row |] eqn:Hrow.
  - eauto.
  - apply nth_error_None in Hrow. lia.
Qed.

Lemma get_embeddings_shape (emb_mat : tensor2) (indices : ids2) (N T : nat) :
  has_shape2 N T indices ->
  ids_in_range (length emb_mat) indices ->
  exists emb, get_embeddings emb_mat indices = Some emb /\ has_shape2 N T emb.
Proof.
  unfold get_embeddings, tf_nn_embedding_lookup, ids_in_range.
  intros [HN Hrows] Hrange.
  destruct (map_exact_total (map_exact (lookup_row emb_mat)) (has_shape1 T)
              indices) as [emb [Hemb [Hlen Hshape]]].
  - apply Forall_forall. intros row Hrow.
    rewrite Forall_forall in Hrows, Hrange.
    specialize (Hrows row Hrow). specialize (Hrange row Hrow).
    destruct (map_exact_total (lookup_row emb_mat) (fun _ => True) row)
      as [r [Hr [Hlen _]]].
    + apply Forall_forall. intros i Hi.
      rewrite Forall_forall in Hrange.
      destruct (lookup_row_defined emb_mat i (Hrange i Hi)) as [v Hv].
      exists v. auto.
    + exists r. split; [exact Hr |]. exact (eq_trans Hlen Hrows).
  - exists emb. split; [exact Hemb |]. split; [| exact Hshape].
    exact (eq_trans Hlen HN).
Qed.

Lemma length_enumerate {A : Type} (l : list A) :
  length (enumerate l) = length l.
Proof.
  unfold enumerate. rewrite length_combine, length_seq. apply Nat.min_id.
Qed.

Lemma tf_nn_dropout_shape (x : tensor3) (keep_prob : R)
    (u : nat -> nat -> R) (N T : nat) :
  has_shape2 N T x -> has_shape2 N T (tf_nn_dropout x keep_prob u).
Proof.
  unfold has_shape2, has_shape1, tf_nn_dropout. intros [HN Hrows]. split.
  - rewrite length_map, length_enumerate. exact HN.
  - apply Forall_forall. intros ex Hex.
    apply in_map_iff in Hex. destruct Hex as [[n example] [<- Hin]].
    rewrite length_map.
    unfold enumerate in Hin. apply in_combine_r in Hin.
    rewrite Forall_forall in Hrows. auto.
Qed.

Lemma length_pad_same (kernel_size : nat) (x : list vec) :
  length (pad_same kernel_size x) = (length x + (kernel_size - 1))%nat.
Proof.
  unfold pad_same. rewrite !length_app, !repeat_length.
  pose proof (Nat.Div0.mul_div_le (kernel_size - 1) 2). lia.
Qed.

(** One convolution with padding 'same' keeps the number of tokens. *)
Lemma conv1d_same_length (filters kernel_size : nat) (w : ConvWeights)
    (x : list vec) :
  (1 <= kernel_size)%nat ->
  length (conv1d_example Same filters kernel_size w x) = length x.
Proof.
  intros HK. unfold conv1d_example.
  rewrite length_map, length_seq, length_pad_same. lia.
Qed.

(** Without padding it loses [kernel_size - 1] of them: the notebook's toy
    run maps 10 tokens to 3 with a kernel of width 8. *)
Lemma conv1d_valid_length (filters kernel_size : nat) (w : ConvWeights)
    (x : list vec) :
  length (conv1d_example Valid filters kernel_size w x)
  = (length x + 1 - kernel_size)%nat.
Proof. unfold conv1d_example. rewrite length_map, length_seq. reflexivity. Qed.

(** The two toy runs of the notebook on 10 tokens with a kernel of width 8:
    3 tokens without padding, 10 with padding 'same'. *)
Example conv1d_notebook_runs (w : ConvWeights) (x : list vec) :
  length x = 10%nat ->
  length (conv1d_example Valid 200 8 w x) = 3%nat /\
  length (conv1d_example Same 200 8 w x) = 10%nat.
Proof.
  intros Hx. rewrite conv1d_valid_length, conv1d_same_length by lia.
  rewrite Hx. split; reflexivity.
Qed.

Lemma conv1d_channels (padding : Padding) (filters kernel_size : nat)
    (w : ConvWeights) (x : list vec) :
  Forall (has_shape1 filters) (conv1d_example padding filters kernel_size w x).
Proof.
  unfold conv1d_example, has_shape1. apply Forall_forall. intros token Hin.
  apply in_map_iff in Hin. destruct Hin as [t [<- _]].
  rewrite length_map. apply length_seq.
Qed.

Lemma conv_net_token_lengths (layers : list ConvWeights) (units : tensor3)
    (n_hidden_list : list nat) (cnn_filter_width : nat) (activation : R -> R) :
  (1 <= cnn_filter_width)%nat ->
  map (@length vec)
      (conv_net layers units n_hidden_list cnn_filter_width activation)
  = map (@length vec) units.
Proof.
  intros HK. revert layers units.
  induction n_hidden_list as [|i rest IH]; intros layers units; simpl.
  - reflexivity.
  - rewrite IH. unfold tf_layers_conv1d. rewrite !map_map.
    apply map_ext. intros example.
    rewrite length_map. apply conv1d_same_length. exact HK.
Qed.

Lemma has_shape2_map_length {A : Type} (N T : nat) (t : list (list A)) :
  has_shape2 N T t <-> map (@length A) t = repeat T N.
Proof.
  unfold has_shape2, has_shape1. revert N.
  induction t as [|r t IH]; intros N; simpl.
  - split.
    + intros [<- _]. reflexivity.
    + destruct N; [auto | discriminate].
  - split.
    + intros [<- Hrows]. inversion Hrows; subst. simpl. f_equal.
      apply IH. auto.
    + destruct N as [|N]; [discriminate |]. simpl. intros Heq.
      injection Heq as Hr Ht. apply IH in Ht. destruct Ht as [Hlen Hrows].
      split; [congruence | constructor; assumption].
Qed.

Lemma conv_net_shape (layers : list ConvWeights) (units : tensor3)
    (n_hidden_list : list nat) (cnn_filter_width : nat) (activation : R -> R)
    (N T : nat) :
  (1 <= cnn_filter_width)%nat ->
  has_shape2 N T units ->
  has_shape2 N T
    (conv_net layers units n_hidden_list cnn_filter_width activation).
Proof.
  intros HK Hunits. apply has_shape2_map_length.
  rewrite conv_net_token_lengths by exact HK.
  apply has_shape2_map_length. exact Hunits.
Qed.

Lemma tf_layers_dense_shape (units : tensor3) (n_out : nat) (w : DenseWeights)
    (N T : nat) :
  has_shape2 N T units -> has_shape3 N T n_out (tf_layers_dense units n_out w).
Proof.
  unfold has_shape3, has_shape2, has_shape1, tf_layers_dense.
  intros [HN Hrows]. split.
  - rewrite length_map. exact HN.
  - apply Forall_forall. intros ex Hex.
    apply in_map_iff in Hex. destruct Hex as [example [<- Hin]].
    rewrite Forall_forall in Hrows. split.
    + rewrite length_map. auto.
    + apply Forall_forall. intros token Htoken.
      apply in_map_iff in Htoken. destruct Htoken as [v [<- _]].
      unfold dense_token. rewrite length_map. apply length_seq.
Qed.

Lemma argmax_defined (v : vec) :
  (1 <= length v)%nat -> exists p, argmax v = Some p.
Proof. destruct v as [|x r]; simpl; intros Hlen; [lia | eauto]. Qed.

(** On logits [N, T, C] with at least one class the argmax is defined and
    has shape [N, T]. *)
Lemma tf_argmax_shape (lg : tensor3) (N T C : nat) :
  has_shape3 N T C lg -> (1 <= C)%nat ->
  exists preds, tf_argmax lg C = Some preds /\ has_shape2 N T preds.
Proof.
  unfold tf_argmax. intros [HN Hrows] HC.
  destruct (Nat.eqb_spec C 0) as [HC0 | _]; [lia |].
  destruct (map_exact_total (map_exact argmax) (has_shape1 T) lg)
    as [preds [Hpreds [Hlen Hshape]]].
  - apply Forall_forall. intros ex Hex.
    rewrite Forall_forall in Hrows. destruct (Hrows ex Hex) as [HT Htokens].
    destruct (map_exact_total argmax (fun _ => True) ex) as [row [Hrow [Hl _]]].
    + apply Forall_forall. intros v Hv.
      rewrite Forall_forall in Htokens.
      destruct (argmax_defined v) as [p Hp].
      * rewrite (Htokens v Hv). exact HC.
      * exists p. auto.
    + exists row. split; [exact Hrow |]. exact (eq_trans Hl HT).
  - exists preds. split; [exact Hpreds |].
    split; [exact (eq_trans Hlen HN) | exact Hshape].
Qed.

(** The logits of a batch [N, T] with ids inside the embedding matrix are
    defined and have shape [N, T, n_tags]. *)
Lemma logits_defined_with_shape
    (cfg : Config) (w : Weights) (feed : Feed) (rng : Noise)
    (tokens : ids2) (keep : R) (N T : nat) :
  token_ph feed = Some tokens ->
  dropout_keep_ph feed = Some keep ->
  has_shape2 N T tokens ->
  ids_in_range (length (emb_mat w)) tokens ->
  (1 <= cnn_filter_width cfg)%nat ->
  exists lg,
    logits cfg w feed rng = Some lg /\ has_shape3 N T (n_tags cfg) lg.
Proof.
  intros Htok Hkeep Hshape Hrange HK.
  destruct (get_embeddings_shape (emb_mat w) tokens N T Hshape Hrange)
    as [emb [Hemb Hembshape]].
  eexists. split.
  - unfold logits. rewrite Htok. simpl. rewrite Hemb. simpl.
    rewrite Hkeep. reflexivity.
  - apply tf_layers_dense_shape, tf_nn_dropout_shape, conv_net_shape;
      [exact HK |].
    apply tf_nn_dropout_shape. exact Hembshape.
Qed.

(** C5. For a token-id batch of shape [N, T] whose ids the embedding matrix
    holds, every convolution of [conv_net] (padding 'same', then the
    activation) returns as many tokens as it receives, and the logits
    computed by the graph have shape [N, T, n_tags].  With at least one tag
    the predicted ids are defined and have shape [N, T]. *)
Theorem logits_keep_token_dimension
    (cfg : Config) (w : Weights) (feed : Feed) (rng : Noise)
    (tokens : ids2) (keep : R) (N T : nat) :
  token_ph feed = Some tokens ->
  dropout_keep_ph feed = Some keep ->
  has_shape2 N T tokens ->
  ids_in_range (length (emb_mat w)) tokens ->
  (1 <= cnn_filter_width cfg)%nat ->
  (forall filters layer example,
      length (map (map relu)
                  (conv1d_example Same filters (cnn_filter_width cfg)
                                  layer example))
      = length example) /\
  (forall layers units hidden,
      map (@length vec)
          (conv_net layers units hidden (cnn_filter_width cfg) relu)
      = map (@length vec) units) /\
  exists lg,
    logits cfg w feed rng = Some lg /\
    has_shape3 N T (n_tags cfg) lg /\
    ((1 <= n_tags cfg)%nat ->
     exists preds,
       predictions cfg w feed rng = Some preds /\ has_shape2 N T preds).
Proof.
  intros Htok Hkeep Hshape Hrange HK. split; [| split].
  - intros filters layer example. rewrite length_map.
    apply conv1d_same_length. exact HK.
  - intros layers units hidden. apply conv_net_token_lengths. exact HK.
  - destruct (get_embeddings_shape (emb_mat w) tokens N T Hshape Hrange)
      as [emb [Hemb Hembshape]].
    assert (Hlg : logits cfg w feed rng =
                  Some (tf_layers_dense
                          (tf_nn_dropout
                             (conv_net (conv_layers w)
                                (tf_nn_dropout emb keep (emb_noise rng))
                                (n_hidden_list cfg) (cnn_filter_width cfg) relu)
                             keep (top_noise rng))
                          (n_tags cfg) (dense w))).
    { unfold logits. rewrite Htok. simpl. rewrite Hemb. simpl.
      rewrite Hkeep. reflexivity. }
    eexists. split; [exact Hlg |].
    assert (Hout : has_shape3 N T (n_tags cfg)
                     (tf_layers_dense
                        (tf_nn_dropout
                           (conv_net (conv_layers w)
                              (tf_nn_dropout emb keep (emb_noise rng))
                              (n_hidden_list cfg) (cnn_filter_width cfg) relu)
                           keep (top_noise rng))
                        (n_tags cfg) (dense w))).
    { apply tf_layers_dense_shape, tf_nn_dropout_shape, conv_net_shape;
        [exact HK |].
      apply tf_nn_dropout_shape. exact Hembshape. }
    split; [exact Hout |].
    intros Htags.
    destruct (tf_argmax_shape _ N T (n_tags cfg) Hout Htags)
      as [preds [Hpreds Hpshape]].
    exists preds. split; [| exact Hpshape].
    unfold predictions. rewrite Hlg. exact Hpreds.
Qed.

Lemma logits_keep_token_dimension_witness :
  (forall filters layer example,
      length (map (map relu) (conv1d_example Same filters 3 layer example))
      = length example) /\
  (forall layers units hidden,
      map (@length vec) (conv_net layers units hidden 3 relu)
      = map (@length vec) units) /\
  exists lg,
    logits small_config small_weights
           (call_feed_dict [[1%Z; 2%Z]; [0%Z; 0%Z]] [[1; 1]; [0; 0]]) no_noise
      = Some lg /\
    has_shape3 2 2 2 lg /\
    ((1 <= 2)%nat ->
     exists preds,
       predictions small_config small_weights
                   (call_feed_dict [[1%Z; 2%Z]; [0%Z; 0%Z]] [[1; 1]; [0; 0]])
                   no_noise = Some preds /\
       has_shape2 2 2 preds).
Proof.
  apply (logits_keep_token_dimension small_config small_weights
           (call_feed_dict [[1%Z; 2%Z]; [0%Z; 0%Z]] [[1; 1]; [0; 0]]) no_noise
           [[1%Z; 2%Z]; [0%Z; 0%Z]] 1 2 2).
  - reflexivity.
  - reflexivity.
  - concrete_shape.
  - concrete_shape.
  - simpl. lia.
Defined.

(** The padding of a kernel of width 3 at work: two tokens with the units
    2 and 3 are padded to four rows, and each output adds a token to its two
    neighbours. *)
Example conv1d_same_width_3 :
  pad_same 3 [[2]; [3]] = [[0]; [2]; [3]; [0]] /\
  map (map relu)
      (conv1d_example Same 1 3
         {| conv_kernel := [[[1]]; [[1]]; [[1]]]; conv_bias := [0] |}
         [[2]; [3]])
  = [[5]; [5]].
Proof.
  split; [reflexivity |].
  unfold conv1d_example, conv_window, relu. simpl.
  repeat f_equal; (rewrite Rmax_right; lra).
Qed.

(** ** Dropout *)

Lemma map_combine_seq_snd {A : Type} (f : nat * A -> A) (l : list A) (s : nat) :
  (forall c v, f (c, v) = v) ->
  map f (combine (seq s (length l)) l) = l.
Proof.
  intros Hf. revert s.
  induction l as [|x l IH]; intros s; simpl.
  - reflexivity.
  - rewrite Hf, IH. reflexivity.
Qed.

Lemma dropout_scale_keep_all (r : R) : 0 <= r < 1 -> dropout_scale 1 r = 1.
Proof.
  intros Hr. unfold dropout_scale.
  rewrite (Zfloor_eq 1 (1 + r)); [reflexivity | lra].
Qed.

Lemma dropout_examples_keep_all (x : tensor3) (u : nat -> nat -> R) (s : nat) :
  unit_interval u ->
  map (fun '(n, example) =>
         map (fun token =>
                map (fun '(c, v) => v / 1 * dropout_scale 1 (u n c))
                    (enumerate token))
             example)
      (combine (seq s (length x)) x)
  = x.
Proof.
  intros Hu. revert s.
  induction x as [|example x IH]; intros s; simpl.
  - reflexivity.
  - rewrite IH. f_equal.
    rewrite <- (map_id example) at 2. apply map_ext. intros token.
    apply map_combine_seq_snd. intros c v.
    rewrite dropout_scale_keep_all by apply Hu. field.
Qed.

(** With keep probability 1 and uniform draws in [0, 1) dropout changes
    nothing. *)
Lemma tf_nn_dropout_keep_all (x : tensor3) (u : nat -> nat -> R) :
  unit_interval u -> tf_nn_dropout x 1 u = x.
Proof. intros Hu. apply dropout_examples_keep_all. exact Hu. Qed.

Lemma nth_map_combine_seq {A B : Type} (f : nat * A -> B) (l : list A)
    (s n : nat) (dA : A) (dB : B) :
  (n < length l)%nat ->
  nth n (map f (combine (seq s (length l)) l)) dB = f ((s + n)%nat, nth n l dA).
Proof.
  revert s n. induction l as [|x l IH]; intros s n Hn; simpl in *.
  - lia.
  - destruct n as [|n].
    + rewrite Nat.add_0_r. reflexivity.
    + rewrite IH by lia. f_equal. f_equal. lia.
Qed.

Lemma nth_map_in_range {A B : Type} (f : A -> B) (l : list A) (n : nat)
    (dA : A) (dB : B) :
  (n < length l)%nat -> nth n (map f l) dB = f (nth n l dA).
Proof.
  intros Hn. rewrite (nth_indep _ dB (f dA)) by (rewrite length_map; exact Hn).
  apply map_nth.
Qed.

(** Entry [n, t, c] of the output of dropout is the input entry divided by
    the keep probability and multiplied by the mask of example [n] and
    channel [c]: the mask does not depend on the token position [t]. *)
Lemma tf_nn_dropout_entry (x : tensor3) (keep_prob : R) (u : nat -> nat -> R)
    (n t c : nat) :
  nth c (nth t (nth n (tf_nn_dropout x keep_prob u) []) []) 0
  = nth c (nth t (nth n x []) []) 0 / keep_prob
    * dropout_scale keep_prob (u n c).
Proof.
  unfold tf_nn_dropout, enumerate.
  destruct (Nat.lt_ge_cases n (length x)) as [Hn | Hn].
  - rewrite (nth_map_combine_seq _ x 0 n [] []) by exact Hn. simpl.
    set (example := nth n x []).
    destruct (Nat.lt_ge_cases t (length example)) as [Ht | Ht].
    + rewrite (nth_map_in_range _ example t [] []) by exact Ht.
      set (token := nth t example []).
      destruct (Nat.lt_ge_cases c (length token)) as [Hc | Hc].
      * rewrite (nth_map_combine_seq _ token 0 c 0 0) by exact Hc.
        reflexivity.
      * rewrite !nth_overflow;
          [unfold Rdiv; ring | exact Hc |].
        rewrite length_map, length_combine, length_seq, Nat.min_id. exact Hc.
    + rewrite (nth_overflow (map _ example))
        by (rewrite length_map; exact Ht).
      rewrite (nth_overflow example) by exact Ht.
      destruct c; simpl; unfold Rdiv; ring.
  - rewrite (nth_overflow (map _ _))
      by (rewrite length_map, length_combine, length_seq, Nat.min_id; exact Hn).
    rewrite (nth_overflow x) by exact Hn.
    destruct t, c; simpl; unfold Rdiv; ring.
Qed.

Lemma dropout_scale_kept (keep_prob r : R) :
  0 < keep_prob <= 1 -> 0 <= r < 1 -> 1 - keep_prob <= r ->
  dropout_scale keep_prob r = 1.
Proof.
  intros Hk Hr Hle. unfold dropout_scale.
  rewrite (Zfloor_eq 1 (keep_prob + r)); [reflexivity | lra].
Qed.

Lemma dropout_scale_dropped (keep_prob r : R) :
  0 < keep_prob <= 1 -> 0 <= r < 1 -> r < 1 - keep_prob ->
  dropout_scale keep_prob r = 0.
Proof.
  intros Hk Hr Hlt. unfold dropout_scale.
  rewrite (Zfloor_eq 0 (keep_prob + r)); [reflexivity | lra].
Qed.

Lemma call_is_forward_without_dropout
    (Slots : Type) (net : NerNetwork Slots) (tok_batch : ids2)
    (mask_batch : tensor2) (rng : Noise) :
  unit_interval (emb_noise rng) -> unit_interval (top_noise rng) ->
  call net tok_batch mask_batch rng
  = (lg <- forward_without_dropout (config net) (weights net) tok_batch ;;
     tf_argmax lg (n_tags (config net))).
Proof.
  intros He Ht.
  unfold call, predictions, logits, forward_without_dropout. simpl.
  destruct (get_embeddings (emb_mat (weights net)) tok_batch) as [emb |];
    simpl; [| reflexivity].
  rewrite !tf_nn_dropout_keep_all by assumption. reflexivity.
Qed.

(** C8. The prediction entry point feeds the keep probability 1: whatever
    the uniform draws of the run, its result is the argmax of the forward
    pass without dropout, so two runs on the same weights agree.  The
    training entry point minimizes the loss of the forward pass with dropout
    at the caller's keep probability, after the embedding lookup and after
    the convolution stack.  Dropout draws once per example and channel: when
    the draw is at least [1 - keep_prob] the entries of all token positions
    are divided by the keep probability, otherwise they are all 0. *)
Theorem dropout_at_training_time_only
    (Slots : Type)
    (adam_minimize :
       R -> (Weights -> option R) -> Slots * Weights -> Slots * Weights)
    (net : NerNetwork Slots) (tok_batch tag_batch : ids2)
    (mask_batch : tensor2) (dropout_keep_prob learning_rate : R)
    (rng : Noise) :
  unit_interval (emb_noise rng) ->
  unit_interval (top_noise rng) ->
  0 < dropout_keep_prob <= 1 ->
  call net tok_batch mask_batch rng
    = (lg <- forward_without_dropout (config net) (weights net) tok_batch ;;
       tf_argmax lg (n_tags (config net))) /\
  (forall rng',
      unit_interval (emb_noise rng') -> unit_interval (top_noise rng') ->
      call net tok_batch mask_batch rng' = call net tok_batch mask_batch rng) /\
  train_on_batch adam_minimize net tok_batch tag_batch mask_batch
                 dropout_keep_prob learning_rate rng
    = (_ <- (lg <- forward_with_dropout (config net) (weights net) tok_batch
                     dropout_keep_prob rng ;;
             masked_cross_entropy lg tok_batch (n_tags (config net))
                                  mask_batch) ;;
       Some {| config := config net;
               state :=
                 adam_minimize (1 / 1000)
                   (fun w =>
                      lg <- forward_with_dropout (config net) w tok_batch
                              dropout_keep_prob rng ;;
                      masked_cross_entropy lg tok_batch (n_tags (config net))
                                           mask_batch)
                   (state net) |}) /\
  (forall (x : tensor3) (u : nat -> nat -> R) (n c : nat),
      unit_interval u ->
      (1 - dropout_keep_prob <= u n c ->
       forall t,
         nth c (nth t (nth n (tf_nn_dropout x dropout_keep_prob u) []) []) 0
         = nth c (nth t (nth n x []) []) 0 / dropout_keep_prob) /\
      (u n c < 1 - dropout_keep_prob ->
       forall t,
         nth c (nth t (nth n (tf_nn_dropout x dropout_keep_prob u) []) []) 0
         = 0)).
Proof.
  intros Hemb Htop Hkeep. split; [| split; [| split]].
  - apply call_is_forward_without_dropout; assumption.
  - intros rng' He Ht.
    rewrite !call_is_forward_without_dropout by assumption. reflexivity.
  - reflexivity.
  - intros x u n c Hu. split; intros Hdraw t; rewrite tf_nn_dropout_entry.
    + rewrite dropout_scale_kept by (try apply Hu; assumption). lra.
    + rewrite dropout_scale_dropped by (try apply Hu; assumption). lra.
Qed.

Lemma dropout_at_training_time_only_witness :
  call small_network [[1%Z; 2%Z]] [[1; 1]] dropping_noise
    = (lg <- forward_without_dropout small_config small_weights
               [[1%Z; 2%Z]] ;;
       tf_argmax lg 2) /\
  (forall rng',
      unit_interval (emb_noise rng') -> unit_interval (top_noise rng') ->
      call small_network [[1%Z; 2%Z]] [[1; 1]] rng'
      = call small_network [[1%Z; 2%Z]] [[1; 1]] dropping_noise) /\
  train_on_batch idle_optimizer small_network [[1%Z; 2%Z]] [[0%Z; 1%Z]]
                 [[1; 1]] (1 / 2) (1 / 1000) dropping_noise
    = (_ <- (lg <- forward_with_dropout small_config small_weights
                     [[1%Z; 2%Z]] (1 / 2) dropping_noise ;;
             masked_cross_entropy lg [[1%Z; 2%Z]] 2 [[1; 1]]) ;;
       Some {| config := small_config;
               state :=
                 idle_optimizer (1 / 1000)
                   (fun w =>
                      lg <- forward_with_dropout small_config w [[1%Z; 2%Z]]
                              (1 / 2) dropping_noise ;;
                      masked_cross_entropy lg [[1%Z; 2%Z]] 2 [[1; 1]])
                   (tt, small_weights) |}) /\
  (forall (x : tensor3) (u : nat -> nat -> R) (n c : nat),
      unit_interval u ->
      (1 - 1 / 2 <= u n c ->
       forall t,
         nth c (nth t (nth n (tf_nn_dropout x (1 / 2) u) []) []) 0
         = nth c (nth t (nth n x []) []) 0 / (1 / 2)) /\
      (u n c < 1 - 1 / 2 ->
       forall t,
         nth c (nth t (nth n (tf_nn_dropout x (1 / 2) u) []) []) 0 = 0)).
Proof.
  apply (dropout_at_training_time_only unit idle_optimizer small_network
           [[1%Z; 2%Z]] [[0%Z; 1%Z]] [[1; 1]] (1 / 2) (1 / 1000)
           dropping_noise).
  - intros n c. simpl. lra.
  - intros n c. simpl. lra.
  - lra.
Defined.

(** The small network on the batch [[1; 2]]: without dropout the logits are
    [5; -5] at both tokens and the predicted ids are 0; a training step at
    keep probability 1/2 sees the logits [20; -20] when its draws keep
    everything and [0; 0] when they drop everything. *)
Example small_network_logits :
  forward_without_dropout small_config small_weights [[1%Z; 2%Z]]
    = Some [[[5; -5]; [5; -5]]] /\
  forward_with_dropout small_config small_weights [[1%Z; 2%Z]] (1 / 2)
                       keeping_noise
    = Some [[[20; -20]; [20; -20]]] /\
  forward_with_dropout small_config small_weights [[1%Z; 2%Z]] (1 / 2)
                       dropping_noise
    = Some [[[0; 0]; [0; 0]]] /\
  call small_network [[1%Z; 2%Z]] [[1; 1]] dropping_noise = Some [[0; 0]]%Z.
Proof.
  assert (Hfwd : forward_without_dropout small_config small_weights
                   [[1%Z; 2%Z]] = Some [[[5; -5]; [5; -5]]]).
  { unfold forward_without_dropout, tf_layers_dense, dense_token,
      tf_layers_conv1d, conv1d_example, relu. simpl.
    unfold conv_window. simpl.
    repeat f_equal; unfold Rmax; repeat destruct Rle_dec; lra. }
  split; [exact Hfwd |]. split; [| split].
  - unfold forward_with_dropout, tf_layers_dense, dense_token, tf_nn_dropout,
      tf_layers_conv1d, conv1d_example, relu. simpl.
    unfold conv_window. simpl.
    rewrite !(dropout_scale_kept (1 / 2) (3 / 4)) by lra.
    repeat f_equal; unfold Rmax; repeat destruct Rle_dec; lra.
  - unfold forward_with_dropout, tf_layers_dense, dense_token, tf_nn_dropout,
      tf_layers_conv1d, conv1d_example, relu. simpl.
    unfold conv_window. simpl.
    rewrite !(dropout_scale_dropped (1 / 2) (1 / 4)) by lra.
    repeat f_equal; unfold Rmax; repeat destruct Rle_dec; lra.
  - rewrite call_is_forward_without_dropout
      by (intros n c; simpl; lra).
    change (config small_network) with small_config.
    change (weights small_network) with small_weights.
    rewrite Hfwd. unfold tf_argmax, argmax. simpl.
    destruct (Rlt_dec 5 (-5)) as [Hlt | _]; [lra | reflexivity].
Qed.

(** A network without tags has no prediction: the argmax over an empty
    class axis is rejected. *)
Example predictions_without_tags
    (cfg : Config) (w : Weights) (feed : Feed) (rng : Noise) :
  n_tags cfg = 0%nat -> predictions cfg w feed rng = None.
Proof.
  intros Htags. unfold predictions, tf_argmax. rewrite Htags.
  destruct (logits cfg w feed rng); reflexivity.
Qed.

(** ** The training step *)

(** The loss graph reads three placeholders: the tokens, the mask and the
    keep probability. *)
Lemma loss_reads_three_placeholders
    (cfg : Config) (w : Weights) (feed feed' : Feed) (rng : Noise) :
  token_ph feed = token_ph feed' ->
  mask_ph feed = mask_ph feed' ->
  dropout_keep_ph feed = dropout_keep_ph feed' ->
  loss cfg w feed rng = loss cfg w feed' rng.
Proof.
  intros Htok Hmask Hkeep. unfold loss, logits.
  rewrite Htok, Hmask, Hkeep. reflexivity.
Qed.

(** C10. Two training steps from the same network that differ in the tag
    batch only end in the same network: the tag batch goes to [y_ph], which
    the loss does not read. *)
Theorem train_on_batch_ignores_tag_batch
    (Slots : Type)
    (adam_minimize :
       R -> (Weights -> option R) -> Slots * Weights -> Slots * Weights)
    (net : NerNetwork Slots) (tok_batch tag_batch tag_batch' : ids2)
    (mask_batch : tensor2) (dropout_keep_prob learning_rate : R)
    (rng : Noise) :
  train_on_batch adam_minimize net tok_batch tag_batch mask_batch
                 dropout_keep_prob learning_rate rng
  = train_on_batch adam_minimize net tok_batch tag_batch' mask_batch
                   dropout_keep_prob learning_rate rng.
Proof.
  unfold train_on_batch, train_op.
  rewrite (loss_reads_three_placeholders (config net) (weights net)
             (train_feed_dict tok_batch tag_batch mask_batch
                              dropout_keep_prob learning_rate)
             (train_feed_dict tok_batch tag_batch' mask_batch
                              dropout_keep_prob learning_rate) rng)
    by reflexivity.
  reflexivity.
Qed.

(** C2, as the code has it.  Two training steps from the same network that
    differ in the learning rate only end in the same network: the value goes
    to [learning_rate_ph], which the optimizer does not read. *)
Theorem train_on_batch_ignores_learning_rate
    (Slots : Type)
    (adam_minimize :
       R -> (Weights -> option R) -> Slots * Weights -> Slots * Weights)
    (net : NerNetwork Slots) (tok_batch tag_batch : ids2)
    (mask_batch : tensor2) (dropout_keep_prob learning_rate learning_rate' : R)
    (rng : Noise) :
  train_on_batch adam_minimize net tok_batch tag_batch mask_batch
                 dropout_keep_prob learning_rate rng
  = train_on_batch adam_minimize net tok_batch tag_batch mask_batch
                   dropout_keep_prob learning_rate' rng.
Proof.
  unfold train_on_batch, train_op.
  rewrite (loss_reads_three_placeholders (config net) (weights net)
             (train_feed_dict tok_batch tag_batch mask_batch
                              dropout_keep_prob learning_rate)
             (train_feed_dict tok_batch tag_batch mask_batch
                              dropout_keep_prob learning_rate') rng)
    by reflexivity.
  reflexivity.
Qed.

Lemma train_on_batch_uses_default_rate
    (net : NerNetwork R) (tok_batch tag_batch : ids2) (mask_batch : tensor2)
    (dropout_keep_prob learning_rate : R) (rng : Noise) (l : R) :
  loss (config net) (weights net)
       (train_feed_dict tok_batch tag_batch mask_batch
                        dropout_keep_prob learning_rate) rng = Some l ->
  train_on_batch recording_optimizer net tok_batch tag_batch mask_batch
                 dropout_keep_prob learning_rate rng
  = Some {| config := config net; state := (1 / 1000, weights net) |}.
Proof.
  intros Hloss. unfold train_on_batch, train_op. rewrite Hloss. reflexivity.
Qed.

(** ** The labels of the training loss *)

Lemma log_sum_exp_above (a b : R) : a < log_sum_exp [a; b].
Proof.
  unfold log_sum_exp. simpl.
  rewrite <- (ln_exp a) at 1.
  apply ln_increasing.
  - apply exp_pos.
  - pose proof (exp_pos b). lra.
Qed.

Lemma shape_1_1_2 (lg : tensor3) :
  has_shape3 1 1 2 lg -> exists a b, lg = [[[a; b]]].
Proof.
  unfold has_shape3, has_shape2, has_shape1. intros [HN Hrows].
  destruct lg as [|ex [|? ?]]; try discriminate.
  inversion Hrows as [|? ? [HT Hex] _]; subst.
  destruct ex as [|token [|? ?]]; try discriminate.
  inversion Hex as [|? ? HC _]; subst.
  destruct token as [|a [|b [|? ?]]]; try discriminate.
  exists a, b. reflexivity.
Qed.

(** C1, as the code has it.  The loss of a training step is computed against
    the token ids, not against the tag ids.  On the one-token batch with
    token id 5 and tag id 0, in a network with two tags: the one-hot row of
    the token id is all zeros, so the loss the step minimizes is 0 for any
    weights, while the cross-entropy against the tag id is positive. *)
Theorem training_loss_is_against_token_ids
    (cfg : Config) (w : Weights) (dropout_keep_prob learning_rate : R)
    (rng : Noise) :
  n_tags cfg = 2%nat ->
  (5 < length (emb_mat w))%nat ->
  (1 <= cnn_filter_width cfg)%nat ->
  exists lg,
    logits cfg w
           (train_feed_dict [[5%Z]] [[0%Z]] [[1]]
                            dropout_keep_prob learning_rate) rng = Some lg /\
    loss cfg w
         (train_feed_dict [[5%Z]] [[0%Z]] [[1]]
                          dropout_keep_prob learning_rate) rng
      = masked_cross_entropy lg [[5%Z]] 2 [[1]] /\
    loss cfg w
         (train_feed_dict [[5%Z]] [[0%Z]] [[1]]
                          dropout_keep_prob learning_rate) rng = Some 0 /\
    exists l, masked_cross_entropy lg [[0%Z]] 2 [[1]] = Some l /\ 0 < l.
Proof.
  intros Htags Hvocab HK.
  destruct (logits_defined_with_shape cfg w
              (train_feed_dict [[5%Z]] [[0%Z]] [[1]]
                               dropout_keep_prob learning_rate)
              rng [[5%Z]] dropout_keep_prob 1 1)
    as [lg [Hlg Hshape]]; try reflexivity; try exact HK.
  - concrete_shape.
  - concrete_shape.
  - rewrite Htags in Hshape.
    destruct (shape_1_1_2 lg Hshape) as [a [b ->]].
    exists [[[a; b]]]. split; [exact Hlg |].
    assert (Hloss : loss cfg w
                      (train_feed_dict [[5%Z]] [[0%Z]] [[1]]
                                       dropout_keep_prob learning_rate) rng
                    = masked_cross_entropy [[[a; b]]] [[5%Z]] 2 [[1]]).
    { unfold loss. rewrite Hlg. simpl. rewrite Htags. reflexivity. }
    split; [exact Hloss |]. split.
    + rewrite Hloss. unfold masked_cross_entropy, tf_reduce_mean. simpl.
      f_equal. field.
    + exists (log_sum_exp [a; b] - a). split.
      * unfold masked_cross_entropy, tf_reduce_mean. simpl.
        f_equal. field.
      * pose proof (log_sum_exp_above a b). lra.
Qed.

Lemma training_loss_is_against_token_ids_witness :
  exists lg,
    logits toy_config six_token_weights
           (train_feed_dict [[5%Z]] [[0%Z]] [[1]] 1 (1 / 1000)) no_noise
      = Some lg /\
    loss toy_config six_token_weights
         (train_feed_dict [[5%Z]] [[0%Z]] [[1]] 1 (1 / 1000)) no_noise
      = masked_cross_entropy lg [[5%Z]] 2 [[1]] /\
    loss toy_config six_token_weights
         (train_feed_dict [[5%Z]] [[0%Z]] [[1]] 1 (1 / 1000)) no_noise
      = Some 0 /\
    exists l, masked_cross_entropy lg [[0%Z]] 2 [[1]] = Some l /\ 0 < l.
Proof.
  apply (training_loss_is_against_token_ids toy_config six_token_weights
           1 (1 / 1000) no_noise).
  - reflexivity.
  - simpl. lia.
  - simpl. lia.
Defined.

(** ** The initializer of the embedding matrix *)

(** The variance of the samples is the square of the reciprocal of the
    embedding dimension. *)
Lemma get_embeddings_variance (emb_dim : nat) :
  (0 < emb_dim)%nat ->
  variance (get_embeddings_initializer emb_dim)
  = 1 / (INR emb_dim * INR emb_dim).
Proof.
  intros Hpos. unfold variance, get_embeddings_initializer. simpl.
  field. apply not_0_INR. lia.
Qed.

(** The initial embedding matrix has one row per id and [emb_dim] columns,
    as the notebook's check of the shape expects. *)
Lemma emb_mat_initial_shape (vocabulary_size emb_dim : nat)
    (z : nat -> nat -> R) (mat : tensor2) :
  emb_mat_initial vocabulary_size emb_dim z = Some mat ->
  has_shape2 vocabulary_size emb_dim mat.
Proof.
  unfold emb_mat_initial.
  destruct (emb_dim =? 0)%nat; [discriminate |]. intros [= <-].
  unfold has_shape2, has_shape1, tf_random_normal. split.
  - rewrite length_map. apply length_seq.
  - apply Forall_forall. intros row Hrow.
    apply in_map_iff in Hrow. destruct Hrow as [i [<- _]].
    rewrite length_map. apply length_seq.
Qed.

(** C3, as the code has it.  For the embedding dimension 100 the initializer
    has mean 0 and standard deviation 1/100, hence variance 1/10000 and not
    1/100; the standard deviation is not the square root of 1/100. *)
Theorem get_embeddings_stddev_is_reciprocal_of_dimension :
  init_mean (get_embeddings_initializer 100) = 0 /\
  init_stddev (get_embeddings_initializer 100) = 1 / 100 /\
  variance (get_embeddings_initializer 100) = 1 / 10000 /\
  variance (get_embeddings_initializer 100) <> 1 / INR 100 /\
  init_stddev (get_embeddings_initializer 100) <> sqrt (1 / INR 100).
Proof.
  assert (H100 : INR 100 = 100)
    by (rewrite INR_IZR_INZ; reflexivity).
  unfold variance, get_embeddings_initializer.
  cbn [init_mean init_stddev]. rewrite H100.
  repeat split; try lra.
  intros Heq.
  assert (Hsq : sqrt (1 / 100) * sqrt (1 / 100) = 1 / 100)
    by (apply sqrt_sqrt; lra).
  rewrite <- Heq in Hsq. lra.
Qed.

(** ** Evaluation *)

Section EvaluationFacts.

Variable token_vocab : string -> Z.
Variable tag_vocab : Z -> string.
Variable Metrics : Type.
Variable precision_recall_f1 : list string -> list string -> Metrics.
Variable network : ids2 -> tensor2 -> option ids2.

Lemma decode_truncated (x : list (list string)) (y_inds : ids2) :
  concat (map (map tag_vocab)
              (map (fun '(x_, y_) => firstn (length x_) y_)
                   (combine x y_inds)))
  = truncated_tags tag_vocab x y_inds.
Proof.
  unfold truncated_tags. rewrite map_map. f_equal.
  apply map_ext. intros [x_ y_]. reflexivity.
Qed.

Lemma eval_loop_accumulates (batch_generator : list batch)
    (preds : list ids2) (total_true total_pred : list string) :
  answers token_vocab network batch_generator preds ->
  eval_loop token_vocab tag_vocab network batch_generator
            total_true total_pred
  = Some (total_true ++ all_true batch_generator,
          total_pred ++ all_pred tag_vocab batch_generator preds).
Proof.
  unfold answers, all_true, all_pred. intros Hans.
  revert total_true total_pred.
  induction Hans as [|[x y_true] p rest preds Hp _ IH];
    intros total_true total_pred; simpl.
  - rewrite !app_nil_r. reflexivity.
  - simpl in Hp. rewrite Hp. simpl.
    rewrite IH, decode_truncated, !app_assoc. reflexivity.
Qed.

Lemma length_truncated_tags (x : list (list string)) (y_inds : ids2) :
  has_shape2 (length x) (max_len x) y_inds ->
  length (truncated_tags tag_vocab x y_inds) = length (concat x).
Proof.
  unfold truncated_tags, has_shape2, has_shape1. intros [Hlen Hrows].
  assert (Hle : Forall (fun x_ => (length x_ <= max_len x)%nat) x)
    by (apply Forall_forall; intros x_; apply length_le_max_len).
  revert Hle Hrows Hlen. generalize (max_len x) as m.
  intros m Hle. revert y_inds.
  induction x as [|x_ x IH]; intros [|y_ y_inds] Hrows Hlen;
    simpl in Hlen; try lia; simpl.
  - reflexivity.
  - inversion Hle; inversion Hrows; subst.
    rewrite !length_app, length_map, length_firstn.
    rewrite IH by (auto; lia). lia.
Qed.

(** C6. When the network answers on every batch, [eval_valid] computes the
    metric once, on the true tags of all batches and on the predicted
    tags of all batches, where each predicted row is cut to the length of
    its sentence before it is decoded.  No predicted row contributes more
    tags than its sentence has tokens, and rows of the padded length
    contribute exactly one tag per token. *)
Theorem eval_valid_truncates_then_accumulates
    (batch_generator : list batch) (preds : list ids2) :
  answers token_vocab network batch_generator preds ->
  eval_valid token_vocab tag_vocab Metrics precision_recall_f1 network
             batch_generator
  = Some (precision_recall_f1 (all_true batch_generator)
                              (all_pred tag_vocab batch_generator preds)) /\
  (forall (x_ : list string) (y_ : list Z),
      map tag_vocab (firstn (length x_) y_)
      = firstn (length x_) (map tag_vocab y_) /\
      (length (map tag_vocab (firstn (length x_) y_)) <= length x_)%nat) /\
  (Forall2 (fun (b : batch) p =>
              has_shape2 (length (fst b)) (max_len (fst b)) p)
           batch_generator preds ->
   length (all_pred tag_vocab batch_generator preds)
   = length (concat (map (fun b : batch => concat (fst b)) batch_generator))).
Proof.
  intros Hans. repeat split.
  - unfold eval_valid.
    rewrite (eval_loop_accumulates batch_generator preds [] [] Hans).
    reflexivity.
  - symmetry. apply firstn_map.
  - rewrite length_map, length_firstn. apply Nat.le_min_l.
  - intros Hshapes. unfold all_pred. clear Hans.
    induction Hshapes as [|[x y_true] p rest preds Hp _ IH]; simpl.
    + reflexivity.
    + rewrite !length_app, IH.
      rewrite (length_truncated_tags x p Hp). reflexivity.
Qed.

End EvaluationFacts.

Lemma eval_valid_truncates_then_accumulates_witness :
  eval_valid (fun _ => 1%Z) two_tags (list string * list string) pair
             constant_tagger one_batch
  = Some (["B-PER"; "I-PER"; "B-LOC"], ["O"; "O"; "O"])%string.
Proof.
  assert (Hans : answers (fun _ => 1%Z) constant_tagger one_batch
                         [[[0; 0]; [0; 0]]%Z])
    by (repeat constructor).
  exact (proj1 (eval_valid_truncates_then_accumulates
                  (fun _ => 1%Z) two_tags (list string * list string) pair
                  constant_tagger one_batch [[[0; 0]; [0; 0]]%Z] Hans)).
Defined.

(** * Further properties of the notebook's code *)

(** ** The loss of one token *)

Lemma sumR_exp_nonneg (z : vec) : 0 <= sumR (map exp z).
Proof.
  induction z as [|x z IH]; simpl.
  - lra.
  - pose proof (exp_pos x). lra.
Qed.

Lemma exp_le_sum (z : vec) (x : R) : In x z -> exp x <= sumR (map exp z).
Proof.
  induction z as [|y z IH]; simpl; intros Hin.
  - contradiction.
  - destruct Hin as [-> | Hin].
    + pose proof (sumR_exp_nonneg z). lra.
    + specialize (IH Hin). pose proof (exp_pos y). lra.
Qed.

(** Every logit is at most the log-sum-exp of its vector. *)
Lemma logit_le_log_sum_exp (z : vec) (x : R) : In x z -> x <= log_sum_exp z.
Proof.
  intros Hin. unfold log_sum_exp.
  pose proof (exp_le_sum z x Hin) as Hle.
  pose proof (exp_pos x) as Hpos.
  rewrite <- (ln_exp x) at 1.
  destruct Hle as [Hlt | Heq].
  - left. apply ln_increasing; assumption.
  - right. rewrite Heq. reflexivity.
Qed.

Lemma sum_one_hot_products (ys : vec) (s : nat) (i : Z) :
  sumR (map (fun '(x, y) => x * y)
            (combine (map (fun k => if (Z.of_nat k =? i)%Z then 1 else 0)
                          (seq s (length ys)))
                     ys))
  = if ((Z.of_nat s <=? i)%Z && (i <? Z.of_nat (s + length ys))%Z)%bool
    then nth (Z.to_nat i - s) ys 0
    else 0.
Proof.
  revert s. induction ys as [|y ys IH]; intros s.
  - simpl. rewrite Nat.add_0_r.
    destruct (Z.leb_spec (Z.of_nat s) i), (Z.ltb_spec i (Z.of_nat s));
      simpl; try reflexivity; lia.
  - cbn [length seq map combine sumR fold_right].
    change (fold_right Rplus 0) with sumR.
    rewrite (IH (S s)).
    destruct (Z.eqb_spec (Z.of_nat s) i) as [Heq | Hne].
    + subst i.
      destruct (Z.leb_spec (Z.of_nat (S s)) (Z.of_nat s)); [lia |].
      destruct (Z.leb_spec (Z.of_nat s) (Z.of_nat s)); [| lia].
      destruct (Z.ltb_spec (Z.of_nat s) (Z.of_nat (s + S (length ys))));
        [| lia].
      simpl. rewrite Nat2Z.id, Nat.sub_diag. lra.
    + destruct (Z.leb_spec (Z.of_nat (S s)) i),
               (Z.leb_spec (Z.of_nat s) i); try lia;
      destruct (Z.ltb_spec i (Z.of_nat (S s + length ys))),
               (Z.ltb_spec i (Z.of_nat (s + S (length ys)))); try lia;
      simpl; try lra.
      replace (Z.to_nat i - s)%nat with (S (Z.to_nat i - S s)) by lia.
      simpl. lra.
Qed.

(** The cross-entropy of a logit vector against the one-hot row of a label:
    the log-sum-exp minus the logit of the label, and 0 for a label outside
    [0, depth), whose one-hot row is all zeros. *)
Lemma xent_vec_one_hot (depth : nat) (i : Z) (z : vec) :
  length z = depth ->
  xent_vec (one_hot_vec depth i) z
  = Some (if ((0 <=? i)%Z && (i <? Z.of_nat depth)%Z)%bool
          then log_sum_exp z - nth (Z.to_nat i) z 0
          else 0).
Proof.
  intros Hlen. unfold xent_vec, one_hot_vec.
  rewrite vmul_combine
    by (unfold log_softmax; rewrite !length_map, length_seq; auto).
  simpl. f_equal.
  unfold log_softmax.
  rewrite <- Hlen, <- (length_map (fun x => x - log_sum_exp z) z).
  rewrite (sum_one_hot_products (map (fun x => x - log_sum_exp z) z) 0 i).
  rewrite length_map. simpl.
  destruct ((0 <=? i)%Z && (i <? Z.of_nat (length z))%Z)%bool eqn:Hin.
  - apply andb_prop in Hin. destruct Hin as [H0 Hn].
    apply Z.leb_le in H0. apply Z.ltb_lt in Hn.
    rewrite Nat.sub_0_r.
    rewrite (nth_map_in_range (fun x => x - log_sum_exp z) z (Z.to_nat i) 0 0)
      by lia.
    lra.
  - lra.
Qed.

Lemma xent_vec_one_hot_nonneg (depth : nat) (i : Z) (z : vec) :
  length z = depth ->
  exists x, xent_vec (one_hot_vec depth i) z = Some x /\ 0 <= x.
Proof.
  intros Hlen. rewrite (xent_vec_one_hot depth i z Hlen).
  eexists. split; [reflexivity |].
  destruct ((0 <=? i)%Z && (i <? Z.of_nat depth)%Z)%bool eqn:Hin.
  - apply andb_prop in Hin. destruct Hin as [H0 Hn].
    apply Z.leb_le in H0. apply Z.ltb_lt in Hn.
    pose proof (logit_le_log_sum_exp z (nth (Z.to_nat i) z 0)) as Hle.
    assert (Hnth : In (nth (Z.to_nat i) z 0) z) by (apply nth_In; lia).
    specialize (Hle Hnth). lra.
  - lra.
Qed.

(** X1. The loss of a batch of one token with mask value [m]: [m] times the
    log-sum-exp of the logits minus the logit of the label.  A label outside
    [0, number_of_tags) costs nothing. *)
Theorem masked_cross_entropy_one_token
    (z : vec) (label : Z) (number_of_tags : nat) (m : R) :
  length z = number_of_tags ->
  masked_cross_entropy [[z]] [[label]] number_of_tags [[m]]
  = Some (if ((0 <=? label)%Z && (label <? Z.of_nat number_of_tags)%Z)%bool
          then m * (log_sum_exp z - nth (Z.to_nat label) z 0)
          else 0).
Proof.
  intros Hlen. unfold masked_cross_entropy, tf_one_hot,
    tf_softmax_cross_entropy_with_logits_v2, tf_multiply, tf_reduce_mean.
  cbn [map zip_with_exact bind].
  rewrite (xent_vec_one_hot number_of_tags label z Hlen).
  cbn [bind vmul zip_with_exact concat app sumR fold_right length INR].
  f_equal.
  destruct ((0 <=? label)%Z && (label <? Z.of_nat number_of_tags)%Z)%bool;
    field.
Qed.

Lemma masked_cross_entropy_one_token_witness :
  masked_cross_entropy [[[2; 3]]] [[7%Z]] 2 [[1]] = Some 0.
Proof.
  exact (masked_cross_entropy_one_token [2; 3] 7%Z 2 1 eq_refl).
Defined.

(** ** Sign of the loss *)

Lemma cross_entropy_entries (P : R -> Prop)
    (logits : tensor3) (labels : ids2) (n N T : nat) :
  (forall i z, length z = n ->
               exists x, xent_vec (one_hot_vec n i) z = Some x /\ P x) ->
  has_shape3 N T n logits -> has_shape2 N T labels ->
  exists ce,
    tf_softmax_cross_entropy_with_logits_v2 (tf_one_hot labels n) logits
      = Some ce /\
    has_shape2 N T ce /\
    Forall (Forall P) ce.
Proof.
  unfold tf_softmax_cross_entropy_with_logits_v2, tf_one_hot.
  intros HP [HN Hlog] [HN' Hlab].
  destruct (zip_with_exact_total (zip_with_exact xent_vec)
              (fun r => has_shape1 T r /\ Forall P r)
              (map (map (one_hot_vec n)) labels) logits)
    as [ce [Hce [Hlen Hrows]]].
  - assert (Hboth : Forall2 (fun x y => has_shape1 T x /\ has_shape2 T n y)
                            labels logits)
      by (apply Forall2_same_shape; [congruence | assumption | assumption]).
    clear - Hboth HP.
    induction Hboth as [|row ex labels logits [Hrow [HT Hex]] _ IH];
      simpl; constructor; [| exact IH].
    destruct (zip_with_exact_total xent_vec P
                (map (one_hot_vec n) row) ex) as [r [Hr [Hlen HPr]]].
    + assert (Hboth : Forall2 (fun (x : Z) y => True /\ has_shape1 n y) row ex).
      { apply Forall2_same_shape.
        - unfold has_shape1 in *. congruence.
        - apply Forall_forall. auto.
        - exact Hex. }
      clear - Hboth HP. induction Hboth as [|i z row ex [_ Hz] _ IH];
        simpl; constructor; [| exact IH].
      apply HP. exact Hz.
    + exists r. split; [exact Hr |]. split; [| exact HPr].
      unfold has_shape1 in *. rewrite Hlen, length_map. exact Hrow.
  - exists ce. split; [exact Hce |]. split.
    + split.
      * rewrite Hlen, length_map. exact HN'.
      * apply Forall_forall. intros r Hr.
        rewrite Forall_forall in Hrows. apply (Hrows r Hr).
    + apply Forall_forall. intros r Hr.
      rewrite Forall_forall in Hrows. apply (Hrows r Hr).
Qed.

Lemma sum_products_nonneg (a b : vec) :
  Forall (fun x => 0 <= x) a -> Forall (fun x => 0 <= x) b ->
  0 <= sumR (map (fun '(x, y) => x * y) (combine a b)).
Proof.
  intros Ha. revert b.
  induction Ha as [|x a Hx _ IH]; intros b Hb; simpl.
  - lra.
  - destruct b as [|y b]; simpl; [lra |].
    inversion Hb as [|? ? Hy Hb']; subst.
    specialize (IH b Hb'). pose proof (Rmult_le_pos x y Hx Hy). lra.
Qed.

(** X2. For logits [N, T, n], labels [N, T] and a mask [N, T] without
    negative entries, on a batch with at least one position, the loss is
    defined and is not negative. *)
Theorem masked_cross_entropy_nonneg
    (logits : tensor3) (label_indices : ids2) (number_of_tags : nat)
    (mask : tensor2) (N T : nat) :
  has_shape3 N T number_of_tags logits ->
  has_shape2 N T label_indices ->
  has_shape2 N T mask ->
  Forall (Forall (fun m => 0 <= m)) mask ->
  (0 < N * T)%nat ->
  exists l,
    masked_cross_entropy logits label_indices number_of_tags mask = Some l /\
    0 <= l.
Proof.
  intros Hlogits Hlabels Hmask Hpos HNT.
  destruct (cross_entropy_entries (fun x => 0 <= x) logits label_indices
              number_of_tags N T (xent_vec_one_hot_nonneg number_of_tags)
              Hlogits Hlabels) as [ce [Hce [Hshape Hsign]]].
  destruct (tf_multiply_rect ce mask N T Hshape Hmask) as [m [Hmul [Hm Hcat]]].
  exists (tf_reduce_mean m). split.
  - unfold masked_cross_entropy. rewrite Hce. simpl. rewrite Hmul. reflexivity.
  - unfold tf_reduce_mean.
    rewrite (length_concat_rect m N T Hm), Hcat.
    apply Rmult_le_pos.
    + apply sum_products_nonneg; apply Forall_concat; assumption.
    + left. apply Rinv_0_lt_compat. apply lt_0_INR. exact HNT.
Qed.

Lemma masked_cross_entropy_nonneg_witness :
  exists l,
    masked_cross_entropy [[[3; -1]; [0; 2]]] [[1%Z; 0%Z]] 2 [[1; 0]] = Some l /\
    0 <= l.
Proof.
  apply (masked_cross_entropy_nonneg [[[3; -1]; [0; 2]]] [[1%Z; 0%Z]] 2
           [[1; 0]] 1 2); concrete_shape; lra.
Defined.

(** ** Positions the mask removes *)

Lemma masked_row_agrees (n : nat) (row : list Z) (za zb : list vec) (m : vec)
    (T : nat) :
  length row = T -> has_shape2 T n za -> has_shape2 T n zb -> length m = T ->
  (forall j, nth j m 0 <> 0 -> nth j za [] = nth j zb []) ->
  exists ca cb r,
    zip_with_exact xent_vec (map (one_hot_vec n) row) za = Some ca /\
    zip_with_exact xent_vec (map (one_hot_vec n) row) zb = Some cb /\
    vmul ca m = Some r /\ vmul cb m = Some r.
Proof.
  unfold has_shape2, has_shape1, vmul. revert za zb m T.
  induction row as [|i row IH]; intros za zb m T Hrow [Ha Hza] [Hb Hzb] Hm Hagree;
    simpl in Hrow; subst T;
    destruct za as [|z za]; try discriminate;
    destruct zb as [|z' zb]; try discriminate;
    destruct m as [|m0 m]; try discriminate.
  - exists [], [], []. simpl. auto.
  - inversion Hza as [|? ? Hz Hza']; inversion Hzb as [|? ? Hz' Hzb']; subst.
    simpl in Ha, Hb, Hm.
    destruct (IH za zb m (length row)) as [ca [cb [r [Hca [Hcb [Hra Hrb]]]]]];
      try (split; [lia | assumption]); try lia.
    { intros j Hj. apply (Hagree (S j)). exact Hj. }
    destruct (xent_vec_defined (one_hot_vec (length z) i) z) as [x Hx];
      [apply length_one_hot_vec |].
    destruct (xent_vec_defined (one_hot_vec (length z) i) z') as [x' Hx'];
      [rewrite length_one_hot_vec; exact (eq_sym Hz') |].
    exists (x :: ca), (x' :: cb), (x * m0 :: r).
    cbn [map zip_with_exact]. rewrite Hx, Hx', Hca, Hcb.
    cbn [bind zip_with_exact]. rewrite Hra, Hrb. cbn [bind].
    repeat split.
    destruct (Req_dec m0 0) as [-> | Hm0].
    + rewrite !Rmult_0_r. reflexivity.
    + assert (Hzz : z = z') by (apply (Hagree 0%nat); exact Hm0).
      subst z'. rewrite Hx in Hx'. injection Hx' as ->. reflexivity.
Qed.

Lemma masked_batch_agrees (n : nat) (labels : ids2) (a b : tensor3)
    (mask : tensor2) (N T : nat) :
  has_shape2 N T labels -> has_shape3 N T n a -> has_shape3 N T n b ->
  has_shape2 N T mask ->
  (forall i j, nth j (nth i mask []) 0 <> 0 ->
               nth j (nth i a []) [] = nth j (nth i b []) []) ->
  exists ca cb r,
    tf_softmax_cross_entropy_with_logits_v2 (tf_one_hot labels n) a = Some ca /\
    tf_softmax_cross_entropy_with_logits_v2 (tf_one_hot labels n) b = Some cb /\
    tf_multiply ca mask = Some r /\ tf_multiply cb mask = Some r.
Proof.
  unfold tf_softmax_cross_entropy_with_logits_v2, tf_one_hot, tf_multiply.
  revert a b mask N.
  induction labels as [|row labels IH];
    intros a b mask N [HN Hlab] [Ha Hsa] [Hb Hsb] [Hm Hsm] Hagree;
    simpl in HN; subst N;
    destruct a as [|ea a]; try discriminate;
    destruct b as [|eb b]; try discriminate;
    destruct mask as [|mrow mask]; try discriminate.
  - exists [], [], []. simpl. auto.
  - inversion Hlab as [|? ? Hrow Hlab']; inversion Hsa as [|? ? Hea Hsa'];
      inversion Hsb as [|? ? Heb Hsb']; inversion Hsm as [|? ? Hmrow Hsm'];
      subst.
    simpl in Ha, Hb, Hm.
    destruct (IH a b mask (length labels))
      as [ca [cb [r [Hca [Hcb [Hra Hrb]]]]]];
      try (split; [lia || reflexivity | assumption]).
    { intros i j Hij. apply (Hagree (S i) j). exact Hij. }
    destruct (masked_row_agrees n row ea eb mrow T Hrow Hea Heb Hmrow)
      as [xa [xb [xr [Hxa [Hxb [Hxra Hxrb]]]]]].
    { intros j Hj. apply (Hagree 0%nat j). exact Hj. }
    exists (xa :: ca), (xb :: cb), (xr :: r).
    cbn [map zip_with_exact]. rewrite Hxa, Hxb, Hca, Hcb.
    cbn [bind zip_with_exact]. rewrite Hxra, Hxrb, Hra, Hrb.
    cbn [bind]. auto.
Qed.

(** X3. Two logit tensors of one shape that agree at every position where
    the mask is not 0 have the same loss: what the network computes at
    padded positions does not reach the loss. *)
Theorem masked_cross_entropy_ignores_padded_logits
    (logits logits' : tensor3) (label_indices : ids2) (number_of_tags : nat)
    (mask : tensor2) (N T : nat) :
  has_shape3 N T number_of_tags logits ->
  has_shape3 N T number_of_tags logits' ->
  has_shape2 N T label_indices ->
  has_shape2 N T mask ->
  (forall i j, nth j (nth i mask []) 0 <> 0 ->
               nth j (nth i logits []) [] = nth j (nth i logits' []) []) ->
  masked_cross_entropy logits label_indices number_of_tags mask
  = masked_cross_entropy logits' label_indices number_of_tags mask.
Proof.
  intros Ha Hb Hlab Hmask Hagree.
  destruct (masked_batch_agrees number_of_tags label_indices logits logits'
              mask N T Hlab Ha Hb Hmask Hagree)
    as [ca [cb [r [Hca [Hcb [Hra Hrb]]]]]].
  unfold masked_cross_entropy. rewrite Hca, Hcb. simpl.
  rewrite Hra, Hrb. reflexivity.
Qed.

Lemma masked_cross_entropy_ignores_padded_logits_witness :
  masked_cross_entropy [[[3; -1]; [0; 2]]] [[1%Z; 0%Z]] 2 [[1; 0]]
  = masked_cross_entropy [[[3; -1]; [5; 7]]] [[1%Z; 0%Z]] 2 [[1; 0]].
Proof.
  apply (masked_cross_entropy_ignores_padded_logits
           [[[3; -1]; [0; 2]]] [[[3; -1]; [5; 7]]] [[1%Z; 0%Z]] 2
           [[1; 0]] 1 2); try concrete_shape.
  intros [|[|i]] [|[|j]]; simpl; intros Hm; try reflexivity; lra.
Defined.

(** ** The convolution stack *)

Lemma conv_layer_shape (units : tensor3) (filters kernel_size : nat)
    (w : ConvWeights) (activation : R -> R) (N T : nat) :
  (1 <= kernel_size)%nat ->
  has_shape2 N T units ->
  has_shape3 N T filters
    (map (map (map activation))
         (tf_layers_conv1d units filters kernel_size Same w)).
Proof.
  unfold has_shape3, has_shape2, has_shape1, tf_layers_conv1d.
  intros HK [HN Hrows]. split.
  - rewrite !length_map. exact HN.
  - apply Forall_forall. intros ex Hex.
    rewrite map_map in Hex.
    apply in_map_iff in Hex. destruct Hex as [example [<- Hin]].
    rewrite Forall_forall in Hrows. split.
    + rewrite length_map, conv1d_same_length by exact HK. auto.
    + apply Forall_forall. intros token Htoken.
      apply in_map_iff in Htoken. destruct Htoken as [v [<- Hv]].
      rewrite length_map.
      pose proof (conv1d_channels Same filters kernel_size w example) as Hch.
      rewrite Forall_forall in Hch. apply (Hch v Hv).
Qed.

Lemma has_shape3_tokens {A : Type} (N T C : nat) (t : list (list (list A))) :
  has_shape3 N T C t -> has_shape2 N T t.
Proof.
  unfold has_shape3, has_shape2, has_shape1. intros [HN Hrows].
  split; [exact HN |].
  apply Forall_forall. intros ex Hex.
  rewrite Forall_forall in Hrows. apply (Hrows ex Hex).
Qed.

Lemma relu_nonneg (x : R) : 0 <= relu x.
Proof. unfold relu. apply Rmax_l. Qed.

Lemma relu_units_nonneg (units : tensor3) :
  Forall (Forall (Forall (fun v => 0 <= v))) (map (map (map relu)) units).
Proof.
  apply Forall_forall. intros ex Hex.
  apply in_map_iff in Hex. destruct Hex as [ex' [<- _]].
  apply Forall_forall. intros token Htoken.
  apply in_map_iff in Htoken. destruct Htoken as [token' [<- _]].
  apply Forall_forall. intros v Hv.
  apply in_map_iff in Hv. destruct Hv as [v' [<- _]].
  apply relu_nonneg.
Qed.

(** X4. The check of the convolution stack in the notebook, for any input:
    with at least one hidden layer and a kernel of width at least 1, units of
    shape [N, T, .] come out with shape [N, T, n_hidden_list[-1]], and after
    the rectified-linear activation no unit is negative. *)
Theorem conv_net_output_shape_and_sign
    (layers : list ConvWeights) (units : tensor3) (n_hidden_list : list nat)
    (cnn_filter_width : nat) (N T : nat) :
  n_hidden_list <> [] ->
  (1 <= cnn_filter_width)%nat ->
  has_shape2 N T units ->
  has_shape3 N T (last n_hidden_list 0%nat)
             (conv_net layers units n_hidden_list cnn_filter_width relu) /\
  Forall (Forall (Forall (fun v => 0 <= v)))
         (conv_net layers units n_hidden_list cnn_filter_width relu).
Proof.
  intros Hne HK. revert layers units.
  induction n_hidden_list as [|i rest IH]; intros layers units Hunits.
  - contradiction.
  - destruct rest as [|j rest].
    + simpl. split.
      * apply conv_layer_shape; assumption.
      * apply relu_units_nonneg.
    + change (last (i :: j :: rest) 0%nat) with (last (j :: rest) 0%nat).
      change (conv_net layers units (i :: j :: rest) cnn_filter_width relu)
        with (conv_net (tl layers)
                (map (map (map relu))
                     (tf_layers_conv1d units i cnn_filter_width Same
                                       (hd no_weights layers)))
                (j :: rest) cnn_filter_width relu).
      apply IH; [discriminate |].
      eapply has_shape3_tokens. apply conv_layer_shape; eassumption.
Qed.

Lemma conv_net_output_shape_and_sign_witness :
  has_shape3 2 10 20
             (conv_net [] (repeat (repeat (repeat 1 32) 10) 2)
                       [10%nat; 20%nat] 3 relu) /\
  Forall (Forall (Forall (fun v => 0 <= v)))
         (conv_net [] (repeat (repeat (repeat 1 32) 10) 2)
                   [10%nat; 20%nat] 3 relu).
Proof.
  apply (conv_net_output_shape_and_sign [] (repeat (repeat (repeat 1 32) 10) 2)
           [10%nat; 20%nat] 3 2 10).
  - discriminate.
  - lia.
  - unfold has_shape2, has_shape1. split.
    + apply repeat_length.
    + apply Forall_forall. intros ex Hex. apply repeat_spec in Hex. subst.
      apply repeat_length.
Defined.

(** ** The embedding lookup *)

Lemma map_exact_Forall2 {A B : Type} (f : A -> option B) (l : list A)
    (r : list B) :
  map_exact f l = Some r -> Forall2 (fun x y => f x = Some y) l r.
Proof.
  revert r. induction l as [|x l IH]; intros r; simpl.
  - intros [= <-]. constructor.
  - destruct (f x) as [y |] eqn:Hy; simpl; [| discriminate].
    destruct (map_exact f l) as [ys |]; simpl; [| discriminate].
    intros [= <-]. constructor; [exact Hy | apply IH; reflexivity].
Qed.

Lemma Forall2_nth_error_l {A B : Type} (P : A -> B -> Prop) (l : list A)
    (r : list B) (n : nat) (x : A) :
  Forall2 P l r -> nth_error l n = Some x ->
  exists y, nth_error r n = Some y /\ P x y.
Proof.
  intros HF. revert n. induction HF as [|a b l r Hab _ IH]; intros n Hn.
  - destruct n; discriminate.
  - destruct n as [|n]; simpl in *.
    + injection Hn as <-. eauto.
    + apply IH. exact Hn.
Qed.

Lemma Forall2_in_r {A B : Type} (P : A -> B -> Prop) (l : list A)
    (r : list B) (y : B) :
  Forall2 P l r -> In y r -> exists x, In x l /\ P x y.
Proof.
  induction 1 as [|a b l r Hab _ IH]; simpl; intros Hin.
  - contradiction.
  - destruct Hin as [<- | Hin].
    + eauto.
    + destruct (IH Hin) as [x [Hx HP]]. eauto.
Qed.

Lemma lookup_row_initial (vocabulary_size emb_dim : nat)
    (z : nat -> nat -> R) (mat : tensor2) (i : Z) (v : vec) :
  emb_mat_initial vocabulary_size emb_dim z = Some mat ->
  lookup_row mat i = Some v ->
  v = map (fun j => 0 + 1 / INR emb_dim * z (Z.to_nat i) j) (seq 0 emb_dim).
Proof.
  unfold emb_mat_initial.
  destruct (emb_dim =? 0)%nat; [discriminate |]. intros [= <-].
  unfold lookup_row, tf_random_normal.
  destruct (i <? 0)%Z; [discriminate |].
  rewrite nth_error_map.
  destruct (nth_error (seq 0 vocabulary_size) (Z.to_nat i)) as [k |] eqn:Hk;
    simpl; [| discriminate].
  intros [= <-].
  assert (Hlt : (Z.to_nat i < length (seq 0 vocabulary_size))%nat)
    by (apply nth_error_Some; congruence).
  rewrite length_seq in Hlt.
  apply (nth_error_nth _ _ 0%nat) in Hk.
  rewrite seq_nth in Hk by exact Hlt. simpl in Hk. subst k. reflexivity.
Qed.

(** X5. The check of the embeddings in the notebook, for any batch and any
    embedding dimension of at least 1: the freshly initialized matrix is
    built, looking up ids [N, T] below the vocabulary size in it gives a
    tensor [N, T, emb_dim], and the vector at a position holds the standard
    normal draws of the row of its id, scaled by [1 / emb_dim]. *)
Theorem get_embeddings_of_initial_matrix
    (vocabulary_size emb_dim : nat) (z : nat -> nat -> R)
    (indices : ids2) (N T : nat) :
  (1 <= emb_dim)%nat ->
  has_shape2 N T indices ->
  ids_in_range vocabulary_size indices ->
  exists mat emb,
    emb_mat_initial vocabulary_size emb_dim z = Some mat /\
    get_embeddings mat indices = Some emb /\
    has_shape3 N T emb_dim emb /\
    (forall n t row i,
        nth_error indices n = Some row -> nth_error row t = Some i ->
        nth t (nth n emb []) []
        = map (fun j => 0 + 1 / INR emb_dim * z (Z.to_nat i) j)
              (seq 0 emb_dim)).
Proof.
  intros Hdim Hshape Hrange.
  assert (Hmat : exists mat,
             emb_mat_initial vocabulary_size emb_dim z = Some mat).
  { unfold emb_mat_initial.
    destruct (Nat.eqb_spec emb_dim 0) as [H0 | _]; [lia | eauto]. }
  destruct Hmat as [mat Hmat]. exists mat.
  assert (Hrows : length mat = vocabulary_size)
    by (destruct (emb_mat_initial_shape _ _ _ _ Hmat) as [Hlen _]; exact Hlen).
  destruct (get_embeddings_shape mat indices N T Hshape)
    as [emb [Hemb [HN HT]]]; [rewrite Hrows; exact Hrange |].
  exists emb. split; [exact Hmat |]. split; [exact Hemb |].
  unfold get_embeddings, tf_nn_embedding_lookup in Hemb.
  apply map_exact_Forall2 in Hemb.
  split; [split; [exact HN |] |].
  - apply Forall_forall. intros ex Hex. split.
    + rewrite Forall_forall in HT. apply (HT ex Hex).
    + destruct (Forall2_in_r _ _ _ ex Hemb Hex) as [row [_ Hrow]].
      apply map_exact_Forall2 in Hrow.
      apply Forall_forall. intros v Hv.
      destruct (Forall2_in_r _ _ _ v Hrow Hv) as [i [_ Hi]].
      rewrite (lookup_row_initial _ _ _ _ _ _ Hmat Hi).
      unfold has_shape1. rewrite length_map. apply length_seq.
  - intros n t row i Hn Ht.
    destruct (Forall2_nth_error_l _ _ _ n row Hemb Hn) as [ex [Hex Hrow]].
    apply map_exact_Forall2 in Hrow.
    destruct (Forall2_nth_error_l _ _ _ t i Hrow Ht) as [v [Hv Hi]].
    rewrite (nth_error_nth _ _ [] Hex), (nth_error_nth _ _ [] Hv).
    apply (lookup_row_initial _ _ _ _ _ _ Hmat Hi).
Qed.

Lemma get_embeddings_of_initial_matrix_witness :
  exists mat emb,
    emb_mat_initial 5 100 (fun _ _ => 1) = Some mat /\
    get_embeddings mat [[0; 1; 2]]%Z = Some emb /\
    has_shape3 1 3 100 emb /\
    (forall n t row i,
        nth_error [[0; 1; 2]]%Z n = Some row -> nth_error row t = Some i ->
        nth t (nth n emb []) []
        = map (fun j => 0 + 1 / INR 100 * 1) (seq 0 100)).
Proof.
  apply (get_embeddings_of_initial_matrix 5 100 (fun _ _ => 1)
           [[0; 1; 2]]%Z 1 3); concrete_shape.
Defined.

(** The quotient [1.0 / emb_dim] of the initializer: no matrix for the
    embedding dimension 0. *)
Example emb_mat_initial_dimension_0 (vocabulary_size : nat)
    (z : nat -> nat -> R) :
  emb_mat_initial vocabulary_size 0 z = None.
Proof. reflexivity. Qed.

(** ** The predicted ids *)

Lemma argmax_from_spec (l pre : vec) (best_i : nat) (best : R) :
  (best_i < length pre)%nat ->
  nth best_i pre 0 = best ->
  Forall (fun y => y <= best) pre ->
  (argmax_from best_i best (length pre) l < length (pre ++ l))%nat /\
  Forall (fun y => y <= nth (argmax_from best_i best (length pre) l)
                            (pre ++ l) 0)
         (pre ++ l).
Proof.
  revert pre best_i best.
  induction l as [|x l IH]; intros pre best_i best Hi Hbest Hall; simpl.
  - rewrite app_nil_r. rewrite Hbest. auto.
  - assert (Hlen : length (pre ++ [x]) = S (length pre))
      by (rewrite length_app; simpl; lia).
    destruct (Rlt_dec best x) as [Hlt | Hge].
    + specialize (IH (pre ++ [x]) (length pre) x).
      rewrite Hlen, <- app_assoc in IH. simpl in IH. apply IH.
      * lia.
      * rewrite app_nth2 by lia. rewrite Nat.sub_diag. reflexivity.
      * apply Forall_app. split.
        -- eapply Forall_impl; [| exact Hall]. simpl. intros y Hy. lra.
        -- constructor; [lra | constructor].
    + specialize (IH (pre ++ [x]) best_i best).
      rewrite Hlen, <- app_assoc in IH. simpl in IH. apply IH.
      * lia.
      * rewrite app_nth1 by exact Hi. exact Hbest.
      * apply Forall_app. split; [exact Hall |].
        constructor; [lra | constructor].
Qed.

(** The argmax of a vector is one of its positions, and no entry is larger
    than the entry at that position. *)
Lemma argmax_spec (v : vec) (p : Z) :
  argmax v = Some p ->
  (0 <= p < Z.of_nat (length v))%Z /\
  forall c, (c < length v)%nat -> nth c v 0 <= nth (Z.to_nat p) v 0.
Proof.
  destruct v as [|x l]; simpl; [discriminate |]. intros [= <-].
  destruct (argmax_from_spec l [x] 0 x) as [Hlt Hmax];
    [simpl; lia | reflexivity | constructor; [lra | constructor] |].
  simpl in Hlt, Hmax. split; [lia |].
  intros c Hc. rewrite Nat2Z.id.
  rewrite Forall_forall in Hmax. apply Hmax.
  apply (nth_In (x :: l) 0). simpl. lia.
Qed.

Lemma Forall2_nth_error_r {A B : Type} (P : A -> B -> Prop) (l : list A)
    (r : list B) (n : nat) (y : B) :
  Forall2 P l r -> nth_error r n = Some y ->
  exists x, nth_error l n = Some x /\ P x y.
Proof.
  intros HF. revert n. induction HF as [|a b l r Hab _ IH]; intros n Hn.
  - destruct n; discriminate.
  - destruct n as [|n]; simpl in *.
    + injection Hn as <-. eauto.
    + apply IH. exact Hn.
Qed.

(** Every predicted id is the argmax of the logits of its token. *)
Lemma tf_argmax_entries (lg : tensor3) (depth : nat) (preds : ids2)
    (n t : nat) (row : list Z) (p : Z) :
  tf_argmax lg depth = Some preds ->
  nth_error preds n = Some row -> nth_error row t = Some p ->
  argmax (nth t (nth n lg []) []) = Some p.
Proof.
  unfold tf_argmax. destruct (depth =? 0)%nat; [discriminate |].
  intros Hpreds Hn Ht.
  apply map_exact_Forall2 in Hpreds.
  destruct (Forall2_nth_error_r _ _ _ n row Hpreds Hn) as [ex [Hex Hrow]].
  apply map_exact_Forall2 in Hrow.
  destruct (Forall2_nth_error_r _ _ _ t p Hrow Ht) as [v [Hv Hp]].
  assert (Hex' : nth n lg [] = ex) by exact (nth_error_nth lg n [] Hex).
  rewrite Hex'.
  assert (Hv' : @nth (list R) t ex [] = v)
    by exact (nth_error_nth ex t [] Hv).
  rewrite Hv'. exact Hp.
Qed.

(** X6. The prediction entry point on a batch [N, T] with ids inside the
    embedding matrix, in a network with at least one tag: it returns ids of
    shape [N, T], each of them a tag id below [n_tags] whose logit no other
    logit of that token exceeds. *)
Theorem call_returns_best_tag_ids
    (Slots : Type) (net : NerNetwork Slots) (tok_batch : ids2)
    (mask_batch : tensor2) (rng : Noise) (N T : nat) :
  has_shape2 N T tok_batch ->
  ids_in_range (length (emb_mat (weights net))) tok_batch ->
  (1 <= cnn_filter_width (config net))%nat ->
  (1 <= n_tags (config net))%nat ->
  exists lg preds,
    logits (config net) (weights net)
           (call_feed_dict tok_batch mask_batch) rng = Some lg /\
    call net tok_batch mask_batch rng = Some preds /\
    has_shape2 N T preds /\
    (forall n t row p,
        nth_error preds n = Some row -> nth_error row t = Some p ->
        (0 <= p < Z.of_nat (n_tags (config net)))%Z /\
        forall c, (c < n_tags (config net))%nat ->
                  nth c (nth t (nth n lg []) []) 0
                  <= nth (Z.to_nat p) (nth t (nth n lg []) []) 0).
Proof.
  intros Hshape Hrange HK Htags.
  destruct (logits_defined_with_shape (config net) (weights net)
              (call_feed_dict tok_batch mask_batch) rng tok_batch 1 N T)
    as [lg [Hlg Hlgshape]]; try reflexivity; try assumption.
  destruct (tf_argmax_shape lg N T (n_tags (config net)) Hlgshape Htags)
    as [preds [Hpreds Hpshape]].
  exists lg, preds. split; [exact Hlg |]. split.
  - unfold call, predictions. rewrite Hlg. exact Hpreds.
  - split; [exact Hpshape |].
    intros n t row p Hn Ht.
    pose proof (tf_argmax_entries lg _ preds n t row p Hpreds Hn Ht) as Hp.
    destruct (argmax_spec _ p Hp) as [Hrangep Hmax].
    assert (Hlen : length (nth t (nth n lg []) []) = n_tags (config net)).
    { unfold tf_argmax in Hpreds.
      destruct (n_tags (config net) =? 0)%nat; [discriminate |].
      apply map_exact_Forall2 in Hpreds.
      destruct (Forall2_nth_error_r _ _ _ n row Hpreds Hn) as [ex [Hex Hrow]].
      apply map_exact_Forall2 in Hrow.
      destruct (Forall2_nth_error_r _ _ _ t p Hrow Ht) as [v [Hv _]].
      assert (Hex' : nth n lg [] = ex) by exact (nth_error_nth lg n [] Hex).
      rewrite Hex'.
      assert (Hv' : @nth (list R) t ex [] = v)
        by exact (nth_error_nth ex t [] Hv).
      rewrite Hv'.
      destruct Hlgshape as [_ Hrows]. rewrite Forall_forall in Hrows.
      destruct (Hrows ex (nth_error_In _ _ Hex)) as [_ Htokens].
      rewrite Forall_forall in Htokens.
      apply (Htokens v (nth_error_In _ _ Hv)). }
    rewrite Hlen in Hrangep. split; [exact Hrangep |].
    intros c Hc. apply Hmax. rewrite Hlen. exact Hc.
Qed.

Lemma call_returns_best_tag_ids_witness :
  exists lg preds,
    logits toy_config toy_weights (call_feed_dict [[1%Z; 2%Z]] [[1; 1]])
           no_noise = Some lg /\
    call toy_network [[1%Z; 2%Z]] [[1; 1]] no_noise = Some preds /\
    has_shape2 1 2 preds /\
    (forall n t row p,
        nth_error preds n = Some row -> nth_error row t = Some p ->
        (0 <= p < 2)%Z /\
        forall c, (c < 2)%nat ->
                  nth c (nth t (nth n lg []) []) 0
                  <= nth (Z.to_nat p) (nth t (nth n lg []) []) 0).
Proof.
  apply (call_returns_best_tag_ids unit toy_network [[1%Z; 2%Z]] [[1; 1]]
           no_noise 1 2); concrete_shape.
Defined.

(** ** Sentences of one batch do not interact *)

Lemma map_exact_app {A B : Type} (f : A -> option B) (a b : list A) :
  map_exact f (a ++ b)
  = (ra <- map_exact f a ;; rb <- map_exact f b ;; Some (ra ++ rb)).
Proof.
  induction a as [|x a IH]; simpl.
  - destruct (map_exact f b); reflexivity.
  - destruct (f x) as [y |]; simpl; [| reflexivity].
    rewrite IH.
    destruct (map_exact f a) as [ra |]; simpl; [| reflexivity].
    destruct (map_exact f b); reflexivity.
Qed.

Lemma conv_net_app (layers : list ConvWeights) (a b : tensor3)
    (n_hidden_list : list nat) (cnn_filter_width : nat) (activation : R -> R) :
  conv_net layers (a ++ b) n_hidden_list cnn_filter_width activation
  = conv_net layers a n_hidden_list cnn_filter_width activation ++
    conv_net layers b n_hidden_list cnn_filter_width activation.
Proof.
  revert layers a b.
  induction n_hidden_list as [|i rest IH]; intros layers a b; simpl.
  - reflexivity.
  - unfold tf_layers_conv1d. rewrite !map_app. apply IH.
Qed.

Lemma forward_without_dropout_app (cfg : Config) (w : Weights) (a b : ids2) :
  forward_without_dropout cfg w (a ++ b)
  = (la <- forward_without_dropout cfg w a ;;
     lb <- forward_without_dropout cfg w b ;;
     Some (la ++ lb)).
Proof.
  unfold forward_without_dropout, get_embeddings, tf_nn_embedding_lookup.
  rewrite map_exact_app.
  destruct (map_exact (map_exact (lookup_row (emb_mat w))) a) as [ea |];
    simpl; [| reflexivity].
  destruct (map_exact (map_exact (lookup_row (emb_mat w))) b) as [eb |];
    simpl; [| reflexivity].
  rewrite conv_net_app. unfold tf_layers_dense. rewrite map_app. reflexivity.
Qed.

Lemma tf_argmax_app (la lb : tensor3) (depth : nat) :
  tf_argmax (la ++ lb) depth
  = (pa <- tf_argmax la depth ;; pb <- tf_argmax lb depth ;; Some (pa ++ pb)).
Proof.
  unfold tf_argmax. destruct (depth =? 0)%nat; [reflexivity |].
  apply map_exact_app.
Qed.

(** X7. The prediction for a batch made of two batches of padded sentences
    of one width is the prediction for the first followed by the prediction
    for the second, whatever masks are passed: the ids predicted for a
    sentence depend on its own padded row only, and the mask is not used. *)
Theorem call_on_joined_batches
    (Slots : Type) (net : NerNetwork Slots) (a b : ids2)
    (mask mask_a mask_b : tensor2) (rng : Noise) (Na Nb T : nat) :
  unit_interval (emb_noise rng) ->
  unit_interval (top_noise rng) ->
  has_shape2 Na T a ->
  has_shape2 Nb T b ->
  call net (a ++ b) mask rng
  = (pa <- call net a mask_a rng ;;
     pb <- call net b mask_b rng ;;
     Some (pa ++ pb)).
Proof.
  intros He Ht _ _.
  rewrite !call_is_forward_without_dropout by assumption.
  rewrite forward_without_dropout_app.
  destruct (forward_without_dropout (config net) (weights net) a) as [la |];
    simpl; [| reflexivity].
  destruct (forward_without_dropout (config net) (weights net) b) as [lb |];
    simpl.
  - apply tf_argmax_app.
  - destruct (tf_argmax la (n_tags (config net))); reflexivity.
Qed.

Lemma call_on_joined_batches_witness :
  call small_network ([[1%Z; 2%Z]] ++ [[0%Z; 0%Z]]) [[1; 1]; [0; 0]] no_noise
  = (pa <- call small_network [[1%Z; 2%Z]] [[1; 1]] no_noise ;;
     pb <- call small_network [[0%Z; 0%Z]] [[0; 0]] no_noise ;;
     Some (pa ++ pb)).
Proof.
  apply (call_on_joined_batches unit small_network [[1%Z; 2%Z]] [[0%Z; 0%Z]]
           [[1; 1]; [0; 0]] [[1; 1]] [[0; 0]] no_noise 1 1 2).
  - intros n c. simpl. lra.
  - intros n c. simpl. lra.
  - concrete_shape.
  - concrete_shape.
Defined.

(** ** Dropout in a training step *)

(** X8. Dropout with a keep probability in (0, 1] and uniform draws in
    [0, 1): the draw of an example and a channel decides for all token
    positions at once.  When the draw is at least [1 - keep_prob] the
    entries are divided by the keep probability, otherwise they are 0. *)
Theorem tf_nn_dropout_keeps_or_zeroes
    (x : tensor3) (keep_prob : R) (u : nat -> nat -> R) (n c : nat) :
  0 < keep_prob <= 1 ->
  unit_interval u ->
  (1 - keep_prob <= u n c ->
   forall t, nth c (nth t (nth n (tf_nn_dropout x keep_prob u) []) []) 0
             = nth c (nth t (nth n x []) []) 0 / keep_prob) /\
  (u n c < 1 - keep_prob ->
   forall t, nth c (nth t (nth n (tf_nn_dropout x keep_prob u) []) []) 0 = 0).
Proof.
  intros Hk Hu. split; intros Hdraw t; rewrite tf_nn_dropout_entry.
  - rewrite dropout_scale_kept by (try apply Hu; assumption). lra.
  - rewrite dropout_scale_dropped by (try apply Hu; assumption). lra.
Qed.

Lemma tf_nn_dropout_keeps_or_zeroes_witness :
  (1 - 1 / 2 <= 3 / 4 ->
   forall t, nth 0 (nth t (nth 0 (tf_nn_dropout [[[6]; [8]]] (1 / 2)
                                                (fun _ _ => 3 / 4)) []) []) 0
             = nth 0 (nth t (nth 0 [[[6]; [8]]] []) []) 0 / (1 / 2)) /\
  (3 / 4 < 1 - 1 / 2 ->
   forall t, nth 0 (nth t (nth 0 (tf_nn_dropout [[[6]; [8]]] (1 / 2)
                                                (fun _ _ => 3 / 4)) []) []) 0
             = 0).
Proof.
  apply (tf_nn_dropout_keeps_or_zeroes [[[6]; [8]]] (1 / 2)
           (fun _ _ => 3 / 4) 0 0).
  - lra.
  - intros n c. lra.
Defined.

(** ** The training cell *)

Lemma vocabulary_not_empty (token_vocab : string -> Z) (w : Weights) :
  vocab_in_range token_vocab w -> (0 < length (emb_mat w))%nat.
Proof. intros Hv. specialize (Hv EmptyString). lia. Qed.

Lemma padded_ids_in_range (token_vocab : string -> Z) (w : Weights)
    (x : list (list string)) :
  vocab_in_range token_vocab w ->
  ids_in_range (length (emb_mat w)) (zero_pad (map (map token_vocab) x)).
Proof.
  intros Hv. pose proof (vocabulary_not_empty token_vocab w Hv) as Hpos.
  unfold ids_in_range, zero_pad.
  apply Forall_forall. intros row Hrow.
  apply in_map_iff in Hrow. destruct Hrow as [u [<- Hu]].
  apply in_map_iff in Hu. destruct Hu as [tokens [<- _]].
  apply Forall_forall. intros i Hi.
  apply in_app_or in Hi. destruct Hi as [Hi | Hi].
  - apply in_map_iff in Hi. destruct Hi as [s [<- _]]. apply Hv.
  - apply repeat_spec in Hi. subst i. lia.
Qed.

Lemma padded_ids_shape (token_vocab : string -> Z) (x : list (list string)) :
  has_shape2 (length x) (max_len x) (zero_pad (map (map token_vocab) x)).
Proof.
  pose proof (zero_pad_shape (map (map token_vocab) x)) as H.
  rewrite length_map, max_len_map in H. exact H.
Qed.

(** The loss of the batch the training cell builds is defined. *)
Lemma loss_of_padded_batch_defined
    (cfg : Config) (w : Weights) (token_vocab : string -> Z)
    (x : list (list string)) (y_batch : ids2)
    (dropout_keep_prob learning_rate : R) (rng : Noise) :
  vocab_in_range token_vocab w ->
  (1 <= cnn_filter_width cfg)%nat ->
  exists l,
    loss cfg w
         (train_feed_dict (zero_pad (map (map token_vocab) x)) y_batch
                          (get_mask x) dropout_keep_prob learning_rate)
         rng = Some l.
Proof.
  intros Hv HK.
  destruct (logits_defined_with_shape cfg w
              (train_feed_dict (zero_pad (map (map token_vocab) x)) y_batch
                               (get_mask x) dropout_keep_prob learning_rate)
              rng (zero_pad (map (map token_vocab) x)) dropout_keep_prob
              (length x) (max_len x))
    as [lg [Hlg Hshape]]; try reflexivity; try exact HK.
  - apply padded_ids_shape.
  - apply padded_ids_in_range. exact Hv.
  - destruct (cross_entropy_shape lg (zero_pad (map (map token_vocab) x))
                (n_tags cfg) (length x) (max_len x) Hshape
                (padded_ids_shape token_vocab x)) as [ce [Hce Hceshape]].
    destruct (tf_multiply_rect ce (get_mask x) (length x) (max_len x)
                Hceshape (get_mask_shape x)) as [m [Hmul _]].
    exists (tf_reduce_mean m).
    unfold loss. rewrite Hlg. simpl.
    unfold masked_cross_entropy. rewrite Hce. simpl. rewrite Hmul.
    reflexivity.
Qed.

(** X9. One step of the training loop on a batch of sentences whose tokens
    the vocabulary maps into the embedding matrix does not fail: padded ids
    and mask have one shape, the loss is defined, and the step hands the
    optimizer the rate 0.001 and that loss.  The tag lists may be anything,
    even of other lengths than the sentences. *)
Theorem train_on_samples_defined
    (Slots : Type)
    (adam_minimize :
       R -> (Weights -> option R) -> Slots * Weights -> Slots * Weights)
    (token_vocab tag_index : string -> Z)
    (net : NerNetwork Slots) (b : batch) (rng : Noise)
    (dropout_keep_prob learning_rate : R) :
  vocab_in_range token_vocab (weights net) ->
  (1 <= cnn_filter_width (config net))%nat ->
  has_shape2 (length (fst b)) (max_len (fst b))
             (zero_pad (map (map token_vocab) (fst b))) /\
  has_shape2 (length (fst b)) (max_len (fst b)) (get_mask (fst b)) /\
  (exists l,
      loss (config net) (weights net)
           (train_feed_dict (zero_pad (map (map token_vocab) (fst b)))
                            (zero_pad (map (map tag_index) (snd b)))
                            (get_mask (fst b))
                            dropout_keep_prob learning_rate) rng = Some l) /\
  train_on_samples adam_minimize token_vocab tag_index net b rng
                   dropout_keep_prob learning_rate
  = Some {| config := config net;
            state := adam_minimize (1 / 1000)
                       (fun w =>
                          loss (config net) w
                               (train_feed_dict
                                  (zero_pad (map (map token_vocab) (fst b)))
                                  (zero_pad (map (map tag_index) (snd b)))
                                  (get_mask (fst b))
                                  dropout_keep_prob learning_rate) rng)
                       (state net) |}.
Proof.
  intros Hv HK.
  destruct (loss_of_padded_batch_defined (config net) (weights net)
              token_vocab (fst b) (zero_pad (map (map tag_index) (snd b)))
              dropout_keep_prob learning_rate rng Hv HK) as [l Hl].
  split; [apply padded_ids_shape |].
  split; [apply get_mask_shape |].
  split; [exists l; exact Hl |].
  unfold train_on_samples, train_on_batch, train_op.
  rewrite Hl. reflexivity.
Qed.

Lemma train_on_samples_defined_witness :
  exists net',
    train_on_samples idle_optimizer (fun _ => 1%Z) (fun _ => 0%Z) toy_network
                     ([["Peter"; "Blackburn"]; ["BRUSSELS"]],
                      [["B-PER"]])%string
                     no_noise (1 / 2) (1 / 1000)
    = Some net'.
Proof.
  eexists.
  apply (train_on_samples_defined unit idle_optimizer (fun _ => 1%Z)
           (fun _ => 0%Z) toy_network
           ([["Peter"; "Blackburn"]; ["BRUSSELS"]], [["B-PER"]])%string
           no_noise (1 / 2) (1 / 1000)).
  - intros s. simpl. lia.
  - simpl. lia.
Defined.

(** ** The training loop *)

Lemma train_on_samples_equation
    (Slots : Type)
    (adam_minimize :
       R -> (Weights -> option R) -> Slots * Weights -> Slots * Weights)
    (token_vocab tag_index : string -> Z)
    (net : NerNetwork Slots) (b : batch) (rng : Noise)
    (dropout_keep_prob learning_rate : R) :
  vocab_in_range token_vocab (weights net) ->
  (1 <= cnn_filter_width (config net))%nat ->
  exists objective,
    train_on_samples adam_minimize token_vocab tag_index net b rng
                     dropout_keep_prob learning_rate
    = Some {| config := config net;
              state := adam_minimize (1 / 1000) objective (state net) |}.
Proof.
  intros Hv HK.
  destruct (loss_of_padded_batch_defined (config net) (weights net)
              token_vocab (fst b) (zero_pad (map (map tag_index) (snd b)))
              dropout_keep_prob learning_rate rng Hv HK) as [l Hl].
  eexists. unfold train_on_samples, train_on_batch, train_op.
  rewrite Hl. reflexivity.
Qed.

Lemma train_on_samples_ignores_tags_and_rate
    (Slots : Type)
    (adam_minimize :
       R -> (Weights -> option R) -> Slots * Weights -> Slots * Weights)
    (token_vocab tag_index tag_index' : string -> Z)
    (net : NerNetwork Slots) (b : batch) (rng : Noise)
    (dropout_keep_prob learning_rate learning_rate' : R) :
  train_on_samples adam_minimize token_vocab tag_index net b rng
                   dropout_keep_prob learning_rate
  = train_on_samples adam_minimize token_vocab tag_index' net b rng
                     dropout_keep_prob learning_rate'.
Proof.
  unfold train_on_samples, train_on_batch, train_op.
  rewrite (loss_reads_three_placeholders (config net) (weights net)
             (train_feed_dict (zero_pad (map (map token_vocab) (fst b)))
                              (zero_pad (map (map tag_index) (snd b)))
                              (get_mask (fst b))
                              dropout_keep_prob learning_rate)
             (train_feed_dict (zero_pad (map (map token_vocab) (fst b)))
                              (zero_pad (map (map tag_index') (snd b)))
                              (get_mask (fst b))
                              dropout_keep_prob learning_rate') rng)
    by reflexivity.
  reflexivity.
Qed.

Lemma train_epoch_ignores_tags_and_rate
    (Slots : Type)
    (adam_minimize :
       R -> (Weights -> option R) -> Slots * Weights -> Slots * Weights)
    (token_vocab tag_index tag_index' : string -> Z)
    (batches : list (batch * Noise)) (net : NerNetwork Slots)
    (dropout_keep_prob learning_rate learning_rate' : R) :
  train_epoch adam_minimize token_vocab tag_index net batches
              dropout_keep_prob learning_rate
  = train_epoch adam_minimize token_vocab tag_index' net batches
                dropout_keep_prob learning_rate'.
Proof.
  revert net. induction batches as [|[b rng] rest IH]; intros net; simpl.
  - reflexivity.
  - rewrite (train_on_samples_ignores_tags_and_rate Slots adam_minimize
               token_vocab tag_index tag_index' net b rng dropout_keep_prob
               learning_rate learning_rate').
    destruct (train_on_samples adam_minimize token_vocab tag_index' net b rng
                dropout_keep_prob learning_rate'); simpl;
      [apply IH | reflexivity].
Qed.

(** X10. The network the training loop ends with does not depend on the
    starting learning rate, on the decay, on the global step, or on the ids
    the tag vocabulary gives to the tags: the loop passes them on, and no
    training step reads them. *)
Theorem training_loop_ignores_schedule_and_tag_ids
    (Slots : Type)
    (adam_minimize :
       R -> (Weights -> option R) -> Slots * Weights -> Slots * Weights)
    (token_vocab tag_index tag_index' : string -> Z) (tag_vocab : Z -> string)
    (Metrics : Type)
    (precision_recall_f1 : list string -> list string -> Metrics)
    (net : NerNetwork Slots) (epochs : list Epoch)
    (dropout_keep_prob : R)
    (learning_rate learning_rate_decay global_step : R)
    (learning_rate' learning_rate_decay' global_step' : R) :
  option_map fst
    (training_loop adam_minimize token_vocab tag_index tag_vocab
                   precision_recall_f1 net epochs dropout_keep_prob
                   learning_rate learning_rate_decay global_step)
  = option_map fst
      (training_loop adam_minimize token_vocab tag_index' tag_vocab
                     precision_recall_f1 net epochs dropout_keep_prob
                     learning_rate' learning_rate_decay' global_step').
Proof.
  revert net learning_rate learning_rate'.
  induction epochs as [|e rest IH]; intros net lr lr'; simpl.
  - reflexivity.
  - rewrite (train_epoch_ignores_tags_and_rate Slots adam_minimize
               token_vocab tag_index tag_index' (train_batches e) net
               dropout_keep_prob lr lr').
    destruct (train_epoch adam_minimize token_vocab tag_index' net
                (train_batches e) dropout_keep_prob lr') as [net' |];
      simpl; [| reflexivity].
    destruct (eval_valid token_vocab tag_vocab Metrics precision_recall_f1
                (as_network net' (valid_noise e)) (valid_batches e));
      simpl; [apply IH | reflexivity].
Qed.

(** ** Evaluating the network *)

Lemma call_on_padded_batch
    (Slots : Type) (net : NerNetwork Slots) (token_vocab : string -> Z)
    (x : list (list string)) (mask : tensor2) (rng : Noise) :
  vocab_in_range token_vocab (weights net) ->
  (1 <= cnn_filter_width (config net))%nat ->
  (1 <= n_tags (config net))%nat ->
  exists preds,
    call net (zero_pad (map (map token_vocab) x)) mask rng = Some preds /\
    has_shape2 (length x) (max_len x) preds.
Proof.
  intros Hv HK Htags.
  destruct (logits_defined_with_shape (config net) (weights net)
              (call_feed_dict (zero_pad (map (map token_vocab) x)) mask)
              rng (zero_pad (map (map token_vocab) x)) 1
              (length x) (max_len x))
    as [lg [Hlg Hshape]]; try reflexivity; try exact HK.
  - apply padded_ids_shape.
  - apply padded_ids_in_range. exact Hv.
  - destruct (tf_argmax_shape lg _ _ _ Hshape Htags)
      as [preds [Hpreds Hpshape]].
    exists preds. split; [| exact Hpshape].
    unfold call, predictions. rewrite Hlg. exact Hpreds.
Qed.

Lemma network_answers_every_batch
    (Slots : Type) (net : NerNetwork Slots) (token_vocab : string -> Z)
    (rng : Noise) (batch_generator : list batch) :
  vocab_in_range token_vocab (weights net) ->
  (1 <= cnn_filter_width (config net))%nat ->
  (1 <= n_tags (config net))%nat ->
  exists preds,
    answers token_vocab (as_network net rng) batch_generator preds /\
    Forall2 (fun (b : batch) p =>
               has_shape2 (length (fst b)) (max_len (fst b)) p)
            batch_generator preds.
Proof.
  intros Hv HK Htags. unfold answers.
  induction batch_generator as [|b rest [preds [Hans Hshapes]]].
  - exists []. split; constructor.
  - destruct (call_on_padded_batch Slots net token_vocab (fst b)
                (get_mask (fst b)) rng Hv HK Htags) as [p [Hp Hshape]].
    exists (p :: preds). split; constructor; assumption.
Qed.

Lemma length_all_true_of_samples (batch_generator : list batch) :
  Forall (fun b : batch => map (@length string) (snd b)
                           = map (@length string) (fst b)) batch_generator ->
  length (all_true batch_generator)
  = length (concat (map (fun b : batch => concat (fst b)) batch_generator)).
Proof.
  unfold all_true.
  induction 1 as [|[x y] rest Hb _ IH]; simpl.
  - reflexivity.
  - rewrite !length_app, IH. f_equal.
    simpl in Hb. clear - Hb. revert x Hb.
    induction y as [|y_ y IHy]; intros [|x_ x] Hb; try discriminate.
    + reflexivity.
    + simpl in *. injection Hb as Hlen Hrest.
      rewrite !length_app, Hlen, (IHy x Hrest). reflexivity.
Qed.

(** X11. Evaluating a network of the notebook with at least one tag on a
    split whose tokens the vocabulary maps into the embedding matrix does
    not fail: the metric is
    computed on the true tags of the split and on one predicted tag per
    token.  When every sentence has as many tags as tokens, the two lists
    given to the metric have the same length. *)
Theorem eval_valid_on_network
    (Slots : Type) (net : NerNetwork Slots)
    (token_vocab : string -> Z) (tag_vocab : Z -> string) (Metrics : Type)
    (precision_recall_f1 : list string -> list string -> Metrics)
    (rng : Noise) (batch_generator : list batch) :
  vocab_in_range token_vocab (weights net) ->
  (1 <= cnn_filter_width (config net))%nat ->
  (1 <= n_tags (config net))%nat ->
  exists preds,
    answers token_vocab (as_network net rng) batch_generator preds /\
    eval_valid token_vocab tag_vocab Metrics precision_recall_f1
               (as_network net rng) batch_generator
    = Some (precision_recall_f1 (all_true batch_generator)
                                (all_pred tag_vocab batch_generator preds)) /\
    length (all_pred tag_vocab batch_generator preds)
    = length (concat (map (fun b : batch => concat (fst b)) batch_generator)) /\
    (Forall (fun b : batch => map (@length string) (snd b)
                              = map (@length string) (fst b))
            batch_generator ->
     length (all_pred tag_vocab batch_generator preds)
     = length (all_true batch_generator)).
Proof.
  intros Hv HK Htags.
  destruct (network_answers_every_batch Slots net token_vocab rng
              batch_generator Hv HK Htags) as [preds [Hans Hshapes]].
  exists preds. split; [exact Hans |].
  assert (Hlen : length (all_pred tag_vocab batch_generator preds)
                 = length (concat (map (fun b : batch => concat (fst b))
                                       batch_generator))).
  { unfold all_pred. clear Hans.
    induction Hshapes as [|[x y] p rest preds Hp _ IH]; simpl.
    - reflexivity.
    - rewrite !length_app, IH.
      rewrite (length_truncated_tags tag_vocab x p Hp). reflexivity. }
  split; [| split].
  - unfold eval_valid.
    rewrite (eval_loop_accumulates token_vocab tag_vocab
               (as_network net rng) batch_generator preds [] [] Hans).
    reflexivity.
  - exact Hlen.
  - intros Hsamples. rewrite Hlen.
    symmetry. apply length_all_true_of_samples. exact Hsamples.
Qed.

Lemma eval_valid_on_network_witness :
  exists preds,
    answers (fun _ => 1%Z) (as_network small_network no_noise) one_batch preds /\
    eval_valid (fun _ => 1%Z) two_tags (list string * list string) pair
               (as_network small_network no_noise) one_batch
    = Some (all_true one_batch, all_pred two_tags one_batch preds) /\
    length (all_pred two_tags one_batch preds) = 3%nat /\
    (Forall (fun b : batch => map (@length string) (snd b)
                              = map (@length string) (fst b)) one_batch ->
     length (all_pred two_tags one_batch preds) = length (all_true one_batch)).
Proof.
  apply (eval_valid_on_network unit small_network (fun _ => 1%Z) two_tags
           (list string * list string) pair no_noise one_batch).
  - intros s. simpl. lia.
  - simpl. lia.
  - simpl. lia.
Defined.

(** ** The whole training loop *)

Lemma train_epoch_completes
    (Slots : Type)
    (adam_minimize :
       R -> (Weights -> option R) -> Slots * Weights -> Slots * Weights)
    (token_vocab tag_index : string -> Z)
    (batches : list (batch * Noise)) (net : NerNetwork Slots)
    (dropout_keep_prob learning_rate : R) :
  keeps_vocabulary adam_minimize ->
  vocab_in_range token_vocab (weights net) ->
  (1 <= cnn_filter_width (config net))%nat ->
  exists net',
    train_epoch adam_minimize token_vocab tag_index net batches
                dropout_keep_prob learning_rate = Some net' /\
    config net' = config net /\
    length (emb_mat (weights net')) = length (emb_mat (weights net)).
Proof.
  intros Hkeep. revert net.
  induction batches as [|[b rng] rest IH]; intros net Hv HK; simpl.
  - exists net. auto.
  - destruct (train_on_samples_equation Slots adam_minimize token_vocab
                tag_index net b rng dropout_keep_prob learning_rate Hv HK)
      as [objective Hstep].
    rewrite Hstep. simpl.
    set (net1 := {| config := config net;
                    state := adam_minimize (1 / 1000) objective (state net) |}).
    assert (Hlen : length (emb_mat (weights net1))
                   = length (emb_mat (weights net)))
      by apply Hkeep.
    destruct (IH net1) as [net' [Hrun [Hcfg Hemb]]].
    + intros s. rewrite Hlen. apply Hv.
    + exact HK.
    + exists net'. split; [exact Hrun |]. split.
      * exact Hcfg.
      * rewrite Hemb. exact Hlen.
Qed.

(** X12. With an optimizer that keeps the number of rows of the embedding
    matrix, a vocabulary that maps every token into the matrix, a kernel of
    width at least 1 and at least one tag, the training loop runs through
    all its epochs: it
    ends with a network of the same configuration and with the learning
    rate [learning_rate * exp(-(epochs * learning_rate_decay * global_step))]. *)
Theorem training_loop_completes
    (Slots : Type)
    (adam_minimize :
       R -> (Weights -> option R) -> Slots * Weights -> Slots * Weights)
    (token_vocab tag_index : string -> Z) (tag_vocab : Z -> string)
    (Metrics : Type)
    (precision_recall_f1 : list string -> list string -> Metrics)
    (net : NerNetwork Slots) (epochs : list Epoch)
    (dropout_keep_prob learning_rate learning_rate_decay global_step : R) :
  keeps_vocabulary adam_minimize ->
  vocab_in_range token_vocab (weights net) ->
  (1 <= cnn_filter_width (config net))%nat ->
  (1 <= n_tags (config net))%nat ->
  exists net',
    training_loop adam_minimize token_vocab tag_index tag_vocab
                  precision_recall_f1 net epochs dropout_keep_prob
                  learning_rate learning_rate_decay global_step
    = Some (net',
            learning_rate
            * exp (- (INR (length epochs)
                      * (learning_rate_decay * global_step)))) /\
    config net' = config net.
Proof.
  intros Hkeep. revert net learning_rate.
  induction epochs as [|e rest IH]; intros net lr Hv HK Htags.
  - exists net. simpl. split; [| reflexivity].
    do 2 f_equal. rewrite Rmult_0_l, Ropp_0, exp_0. ring.
  - cbn [training_loop].
    destruct (train_epoch_completes Slots adam_minimize token_vocab tag_index
                (train_batches e) net dropout_keep_prob lr Hkeep Hv HK)
      as [net1 [Hrun [Hcfg Hemb]]].
    rewrite Hrun. cbn [bind].
    assert (Hv1 : vocab_in_range token_vocab (weights net1))
      by (intros s; rewrite Hemb; apply Hv).
    assert (HK1 : (1 <= cnn_filter_width (config net1))%nat)
      by (rewrite Hcfg; exact HK).
    assert (Htags1 : (1 <= n_tags (config net1))%nat)
      by (rewrite Hcfg; exact Htags).
    destruct (network_answers_every_batch Slots net1 token_vocab
                (valid_noise e) (valid_batches e) Hv1 HK1 Htags1)
      as [preds [Hans _]].
    unfold eval_valid at 1.
    rewrite (eval_loop_accumulates token_vocab tag_vocab
               (as_network net1 (valid_noise e)) (valid_batches e) preds
               [] [] Hans).
    cbn [bind].
    destruct (IH net1 (lr * exp (- learning_rate_decay * global_step))
                 Hv1 HK1 Htags1)
      as [net' [Hloop Hcfg']].
    exists net'. split; [| congruence].
    rewrite Hloop. do 2 f_equal.
    rewrite Rmult_assoc, <- exp_plus. f_equal. f_equal.
    change (length (e :: rest)) with (S (length rest)).
    rewrite S_INR. ring.
Qed.

Lemma training_loop_completes_witness :
  exists net',
    training_loop idle_optimizer (fun _ => 1%Z) (fun _ => 0%Z) two_tags
                  (@pair (list string) (list string))
                  small_network [one_epoch; one_epoch] (1 / 2)
                  (1 / 1000) (sqrt 2) 2
    = Some (net', 1 / 1000 * exp (- (INR 2 * (sqrt 2 * 2)))) /\
    config net' = small_config.
Proof.
  apply (training_loop_completes unit idle_optimizer (fun _ => 1%Z)
           (fun _ => 0%Z) two_tags (list string * list string) pair
           small_network [one_epoch; one_epoch] (1 / 2) (1 / 1000) (sqrt 2) 2).
  - intros rate objective st. reflexivity.
  - intros s. simpl. lia.
  - simpl. lia.
  - simpl. lia.
Defined.

(** ** The inference cell *)

Lemma zero_pad_single (u : list Z) : zero_pad [u] = [u].
Proof.
  unfold zero_pad, max_len. simpl.
  rewrite Nat.max_0_r, Nat.sub_diag. simpl. rewrite app_nil_r. reflexivity.
Qed.

Lemma get_mask_single {A : Type} (u : list A) :
  get_mask [u] = [repeat 1 (length u)].
Proof.
  unfold get_mask, max_len. simpl.
  rewrite Nat.max_0_r, Nat.sub_diag. simpl. rewrite app_nil_r. reflexivity.
Qed.

(** X13. Tagging one sentence whose tokens the vocabulary maps into the
    embedding matrix, in a network with at least one tag: the batch of the single sentence needs no padding,
    its mask is all ones, and the cell returns exactly one tag per token,
    each the decoding of the id predicted at that token. *)
Theorem tag_sentence_one_tag_per_token
    (Slots : Type) (net : NerNetwork Slots)
    (token_vocab : string -> Z) (tag_vocab : Z -> string)
    (tokens : list string) (rng : Noise) :
  vocab_in_range token_vocab (weights net) ->
  (1 <= cnn_filter_width (config net))%nat ->
  (1 <= n_tags (config net))%nat ->
  zero_pad [map token_vocab tokens] = [map token_vocab tokens] /\
  get_mask [tokens] = [repeat 1 (length tokens)] /\
  exists row,
    call net [map token_vocab tokens] [repeat 1 (length tokens)] rng
      = Some [row] /\
    tag_sentence token_vocab tag_vocab net tokens rng
      = Some (map tag_vocab row) /\
    length (map tag_vocab row) = length tokens.
Proof.
  intros Hv HK Htags.
  split; [apply zero_pad_single |]. split; [apply get_mask_single |].
  destruct (call_on_padded_batch Slots net token_vocab [tokens]
              (get_mask [tokens]) rng Hv HK Htags) as [preds [Hcall [HN HT]]].
  simpl map in Hcall. rewrite zero_pad_single, get_mask_single in Hcall.
  destruct preds as [|row [|? ?]]; try discriminate.
  exists row. split; [exact Hcall |]. split.
  - unfold tag_sentence. simpl map.
    rewrite zero_pad_single, get_mask_single, Hcall. reflexivity.
  - rewrite length_map. inversion HT as [|? ? Hrow _]; subst.
    unfold has_shape1, max_len in Hrow. simpl in Hrow.
    rewrite Nat.max_0_r in Hrow. exact Hrow.
Qed.

Lemma tag_sentence_one_tag_per_token_witness :
  exists row,
    call small_network [map (fun _ => 1%Z) ["Petr"; "stole"; "my"; "vodka"]%string]
         [repeat 1 4] no_noise = Some [row] /\
    tag_sentence (fun _ => 1%Z) two_tags small_network
                 ["Petr"; "stole"; "my"; "vodka"]%string no_noise
      = Some (map two_tags row) /\
    length (map two_tags row) = 4%nat.
Proof.
  apply (tag_sentence_one_tag_per_token unit small_network (fun _ => 1%Z)
           two_tags ["Petr"; "stole"; "my"; "vodka"]%string no_noise).
  - intros s. simpl. lia.
  - simpl. lia.
  - simpl. lia.
Defined.

(** ** Padding sentences and the mean *)

Lemma zip_with_exact_app {A B C : Type} (f : A -> B -> option C)
    (a a' : list A) (b b' : list B) :
  length a = length b ->
  zip_with_exact f (a ++ a') (b ++ b')
  = (r <- zip_with_exact f a b ;;
     r' <- zip_with_exact f a' b' ;;
     Some (r ++ r')).
Proof.
  revert b. induction a as [|x a IH]; intros [|y b] Hlen; try discriminate.
  - simpl. destruct (zip_with_exact f a' b'); reflexivity.
  - simpl. destruct (f x y) as [z |]; simpl; [| reflexivity].
    rewrite IH by (simpl in Hlen; lia).
    destruct (zip_with_exact f a b) as [r |]; simpl; [| reflexivity].
    destruct (zip_with_exact f a' b'); reflexivity.
Qed.

Lemma sum_products_zeros (c : vec) (k : nat) :
  sumR (map (fun '(x, y) => x * y) (combine c (repeat 0 k))) = 0.
Proof.
  revert k. induction c as [|x c IH]; intros [|k]; simpl; try lra.
  rewrite IH. lra.
Qed.

Lemma masked_loss_formula
    (logits : tensor3) (label_indices : ids2) (number_of_tags : nat)
    (mask : tensor2) (N T : nat) :
  has_shape3 N T number_of_tags logits ->
  has_shape2 N T label_indices ->
  has_shape2 N T mask ->
  exists ce,
    tf_softmax_cross_entropy_with_logits_v2
      (tf_one_hot label_indices number_of_tags) logits = Some ce /\
    has_shape2 N T ce /\
    masked_cross_entropy logits label_indices number_of_tags mask
      = Some (weighted_sum ce mask / INR (N * T)).
Proof.
  intros Hlogits Hlabels Hmask.
  destruct (cross_entropy_shape logits label_indices number_of_tags N T
              Hlogits Hlabels) as [ce [Hce Hshape]].
  exists ce. split; [exact Hce |]. split; [exact Hshape |].
  destruct (tf_multiply_rect ce mask N T Hshape Hmask) as [m [Hmul [Hm Hcat]]].
  unfold masked_cross_entropy. rewrite Hce. simpl. rewrite Hmul. simpl.
  unfold tf_reduce_mean, weighted_sum.
  rewrite (length_concat_rect m N T Hm), Hcat. reflexivity.
Qed.

Lemma has_shape2_app {A : Type} (N K T : nat) (a b : list (list A)) :
  has_shape2 N T a -> has_shape2 K T b -> has_shape2 (N + K) T (a ++ b).
Proof.
  unfold has_shape2. intros [HN Ha] [HK Hb]. split.
  - rewrite length_app. lia.
  - apply Forall_app. auto.
Qed.

(** X14. Adding [K] sentences that are all padding to a batch of [N]
    sentences of [T] positions multiplies the loss by [N / (N + K)]: the
    mean is taken over all [(N + K) * T] positions, so the loss of the same
    real tokens depends on how much padding travels with them. *)
Theorem masked_cross_entropy_with_padding_sentences
    (logits extra_logits : tensor3) (label_indices extra_labels : ids2)
    (number_of_tags : nat) (mask : tensor2) (N K T : nat) (l : R) :
  has_shape3 N T number_of_tags logits ->
  has_shape2 N T label_indices ->
  has_shape2 N T mask ->
  has_shape3 K T number_of_tags extra_logits ->
  has_shape2 K T extra_labels ->
  (0 < N * T)%nat ->
  masked_cross_entropy logits label_indices number_of_tags mask = Some l ->
  masked_cross_entropy (logits ++ extra_logits)
                       (label_indices ++ extra_labels) number_of_tags
                       (mask ++ constant2 0 K T)
  = Some (l * INR N / INR (N + K)).
Proof.
  intros Hlogits Hlabels Hmask Hextra Hextralab Hpos Hl.
  destruct (masked_loss_formula logits label_indices number_of_tags mask N T
              Hlogits Hlabels Hmask) as [ce [Hce [Hceshape Hloss]]].
  destruct (cross_entropy_shape extra_logits extra_labels number_of_tags K T
              Hextra Hextralab) as [ce' [Hce' Hceshape']].
  rewrite Hloss in Hl. injection Hl as <-.
  assert (Hall : tf_softmax_cross_entropy_with_logits_v2
                   (tf_one_hot (label_indices ++ extra_labels) number_of_tags)
                   (logits ++ extra_logits) = Some (ce ++ ce')).
  { unfold tf_softmax_cross_entropy_with_logits_v2, tf_one_hot in *.
    rewrite map_app, zip_with_exact_app.
    - rewrite Hce, Hce'. reflexivity.
    - rewrite length_map. destruct Hlogits as [HN1 _].
      destruct Hlabels as [HN2 _]. exact (eq_trans HN2 (eq_sym HN1)). }
  destruct (tf_multiply_rect (ce ++ ce') (mask ++ constant2 0 K T) (N + K) T)
    as [m [Hmul [Hm Hcat]]].
  { apply has_shape2_app; assumption. }
  { apply has_shape2_app; [assumption | apply constant2_shape]. }
  unfold masked_cross_entropy. rewrite Hall. simpl. rewrite Hmul. simpl.
  unfold tf_reduce_mean, weighted_sum.
  rewrite (length_concat_rect m (N + K) T Hm), Hcat.
  rewrite !concat_app, concat_constant2.
  rewrite combine_app_same
    by (rewrite (length_concat_rect ce N T Hceshape),
                (length_concat_rect mask N T Hmask); reflexivity).
  rewrite map_app, sumR_app, sum_products_zeros.
  f_equal. rewrite !mult_INR, plus_INR.
  assert (HN : INR N <> 0) by (apply not_0_INR; lia).
  assert (HT : INR T <> 0) by (apply not_0_INR; lia).
  assert (HNK : INR N + INR K <> 0)
    by (pose proof (pos_INR K); pose proof (lt_0_INR N); assert (0 < N)%nat by lia;
        intuition lra).
  field. auto.
Qed.

Lemma masked_cross_entropy_with_padding_sentences_witness :
  masked_cross_entropy ([[[0; 0]]] ++ [[[5; 7]]]) ([[0%Z]] ++ [[1%Z]]) 2
                       ([[1]] ++ constant2 0 1 1)
  = Some (ln 2 * INR 1 / INR (1 + 1)).
Proof.
  assert (Hone : masked_cross_entropy [[[0; 0]]] [[0%Z]] 2 [[1]] = Some (ln 2)).
  { unfold masked_cross_entropy, tf_reduce_mean. simpl.
    unfold log_sum_exp. simpl. rewrite exp_0.
    replace (1 + (1 + 0)) with 2 by lra.
    f_equal. field. }
  apply (masked_cross_entropy_with_padding_sentences
           [[[0; 0]]] [[[5; 7]]] [[0%Z]] [[1%Z]] 2 [[1]] 1 1 1 (ln 2));
    try exact Hone; concrete_shape.
Defined.
